(** * The Screenplay actor of Serenity/JS: a shallow embedding of
    [packages/core/src/screenplay/Actor.ts]

  The file follows the TypeScript source class by class:

  - [Js]: the fragment of the JavaScript runtime the source leans on
    (constructor chains and [instanceof], thrown values, template literals,
    [Array.prototype.join], [String.prototype.replace], [RegExp.test] for a
    literal pattern, the insertion-ordered [Map]);
  - [TinyTypes]: the [match(...).when(...).else(...)] combinators;
  - [Errors], [Model], [Events]: the error classes, the outcome taxonomy and
    the domain events the actor announces;
  - the [Stage] interface, promises as state-passing computations over a
    world that keeps a journal of the calls made to collaborators;
  - [OutcomeMatcher], [ActivityDescriber], [TrackedActivity], [Actor];
  - [Backstage]: a small stage and cast on which the definitions run;
  - [Spec]: the vocabulary of the statements;
  - [ActorReporting]: [toString], [collect] and [nameFrom] of the actor;
  - [Journal], [Registry], [Wings]: readers of the journal, the shape of
    an ability map, and more of the sample cast.

  Definitions come first, the theorems about them after. *)

From Stdlib Require Import String Ascii List Bool Arith Lia.
Import ListNotations.
Local Open Scope list_scope.
Local Open Scope string_scope.

Set Implicit Arguments.
Set Warnings "-register-all".

(* ================================================================= *)
(** * The JavaScript runtime, as far as Actor.ts uses it *)

Module Js.

(** Objects found on the prototype chain of a constructor function.
    [Object.getPrototypeOf(B)] of [class B extends A] is [A]; a class
    without [extends] (and the built-in [Error]) sits directly on
    [Function.prototype], whose own prototype is [Object.prototype], whose
    prototype is [null].  Classes are compared by reference in JavaScript;
    [tag] keeps apart two classes that agree on name and parent. *)
Inductive Proto : Type :=
| ObjectPrototype
| FunctionPrototype
| Class (tag : nat) (name : string) (parent : Proto).

Definition getPrototypeOf (o : Proto) : option Proto :=
  match o with
  | ObjectPrototype => None
  | FunctionPrototype => Some ObjectPrototype
  | Class _ _ parent => Some parent
  end.

Fixpoint Proto_eqb (a b : Proto) : bool :=
  match a, b with
  | ObjectPrototype, ObjectPrototype => true
  | FunctionPrototype, FunctionPrototype => true
  | Class t n p, Class t' n' p' =>
      Nat.eqb t t' && String.eqb n n' && Proto_eqb p p'
  | _, _ => false
  end.

(** [o.name]: [undefined] on [Object.prototype], the empty string on
    [Function.prototype], the class name on a class. *)
Definition nameOf (o : Proto) : option string :=
  match o with
  | ObjectPrototype => None
  | FunctionPrototype => Some ""
  | Class _ n _ => Some n
  end.

(** [`${ x }`]: a template literal prints [undefined] in full. *)
Definition interpolate (x : option string) : string :=
  match x with Some s => s | None => "undefined" end.

(** The element conversion of [Array.prototype.join]: [undefined] and
    [null] become the empty string. *)
Definition joinItem (x : option string) : string :=
  match x with Some s => s | None => "" end.

Fixpoint join (sep : string) (xs : list (option string)) : string :=
  match xs with
  | [] => ""
  | [x] => joinItem x
  | x :: rest => joinItem x ++ sep ++ join sep rest
  end.

(** The constructor and its superclasses, nearest first: walking
    [getPrototypeOf] up to (and without) [Function.prototype]. *)
Fixpoint classChain (o : Proto) : list Proto :=
  match o with
  | Class _ _ parent => o :: classChain parent
  | _ => []
  end.

(** [x instanceof C] for an object [x] constructed by [ctor]. *)
Definition constructedBy (ctor C : Proto) : bool :=
  existsb (Proto_eqb C) (classChain ctor).

(** The strict superclasses of a class. *)
Definition superclasses (o : Proto) : list Proto :=
  match o with
  | Class _ _ parent => classChain parent
  | _ => []
  end.

(** What a [throw] can carry: a primitive, or an object with its
    constructor; [message] and [cause] are the fields the error classes
    of the framework set.  A thrown function is not represented. *)
Inductive Value : Type :=
| VUndefined
| VNull
| VBoolean (b : bool)
| VNumber (n : nat)
| VString (s : string)
| VObject (constructor : Proto) (message : string) (cause : option Value).

Definition instanceOf (v : Value) (C : Proto) : bool :=
  match v with
  | VObject ctor _ _ => constructedBy ctor C
  | _ => false
  end.

(** [v.constructor.name], read where the source has already established
    that [v] is an object. *)
Definition constructorName (v : Value) : option string :=
  match v with
  | VObject ctor _ _ => nameOf ctor
  | _ => None
  end.

(** [s.startsWith(p)]. *)
Fixpoint startsWith (p s : string) : bool :=
  match p, s with
  | EmptyString, _ => true
  | String a p', String b s' => Ascii.eqb a b && startsWith p' s'
  | String _ _, EmptyString => false
  end.

(** [/literal/.test(s)] for a pattern without metacharacters, which is
    also [s.includes(literal)]. *)
Fixpoint includes (needle s : string) : bool :=
  if startsWith needle s then true
  else match s with
       | EmptyString => false
       | String _ s' => includes needle s'
       end.

Fixpoint drop (n : nat) (s : string) : string :=
  match n, s with
  | S n', String _ s' => drop n' s'
  | _, _ => s
  end.

(** The text before and after the first occurrence of [pat] in [s]. *)
Fixpoint splitAtFirst (pat s : string) : option (string * string) :=
  if startsWith pat s then Some ("", drop (String.length pat) s)
  else match s with
       | EmptyString => None
       | String c s' =>
           match splitAtFirst pat s' with
           | Some (before, after) => Some (String c before, after)
           | None => None
           end
       end.

(** GetSubstitution of ECMAScript for a string pattern (no capture
    groups): in the replacement text [$$] stands for a dollar sign, [$&]
    for the matched text, [$`] for the text before the match and [$']
    for the text after it; any other character, a lone dollar sign
    included, stands for itself. *)
Fixpoint getSubstitution (matched before after replacement : string) : string :=
  match replacement with
  | EmptyString => ""
  | String c rest =>
      if Ascii.eqb c "$" then
        match rest with
        | String d rest' =>
            if Ascii.eqb d "$" then
              String "$" (getSubstitution matched before after rest')
            else if Ascii.eqb d "&" then
              matched ++ getSubstitution matched before after rest'
            else if Ascii.eqb d "`" then
              before ++ getSubstitution matched before after rest'
            else if Ascii.eqb d "'" then
              after ++ getSubstitution matched before after rest'
            else String c (getSubstitution matched before after rest)
        | EmptyString => String c ""
        end
      else String c (getSubstitution matched before after rest)
  end.

(** [s.replace(pat, replacement)] with a string pattern: the first
    occurrence only. *)
Definition replace (s pat replacement : string) : string :=
  match splitAtFirst pat s with
  | Some (before, after) =>
      before ++ getSubstitution pat before after replacement ++ after
  | None => s
  end.

(** ** [Map]: insertion-ordered, one entry per key *)

Section JsMap.
Variable V : Type.

Definition Map := list (Proto * V).

Fixpoint get (m : Map) (k : Proto) : option V :=
  match m with
  | [] => None
  | (k', v) :: rest => if Proto_eqb k' k then Some v else get rest k
  end.

(** [m.set(k, v)]: an existing key keeps its place and takes the new
    value; a new key goes to the end. *)
Fixpoint set (m : Map) (k : Proto) (v : V) : Map :=
  match m with
  | [] => [(k, v)]
  | (k', v') :: rest =>
      if Proto_eqb k' k then (k', v) :: rest else (k', v') :: set rest k v
  end.

Definition keys (m : Map) : list Proto := map fst m.
Definition values (m : Map) : list V := map snd m.
Definition size (m : Map) : nat := List.length m.
End JsMap.

End Js.

Import Js.

(* ================================================================= *)
(** * tiny-types: [match(value).when(pattern, f) ... .else(g)] *)

Module TinyTypes.

(** A rule made from a constructor pattern applies to the instances of
    that constructor; [else] runs the first rule that applies, in the
    order the rules were added, and its own transformation when none
    does. *)
Record Rule (O : Type) : Type := MkRule {
  pattern : Proto;
  transformation : Value -> O;
}.

Record PatternMatcher (O : Type) : Type := MkMatcher {
  value : Value;
  rules : list (Rule O);
}.

Definition match_ {O : Type} (v : Value) : PatternMatcher O :=
  MkMatcher v [].

Definition when {O : Type} (pat : Proto) (f : Value -> O)
    (m : PatternMatcher O) : PatternMatcher O :=
  MkMatcher (value m) (rules m ++ [MkRule pat f])%list.

Definition matches {O : Type} (v : Value) (r : Rule O) : bool :=
  instanceOf v (pattern r).

Definition else_ {O : Type} (g : Value -> O) (m : PatternMatcher O) : O :=
  match find (matches (value m)) (rules m) with
  | Some r => transformation r (value m)
  | None => g (value m)
  end.

End TinyTypes.

(* ================================================================= *)
(** * The error classes of [../errors] *)

Module Errors.

Definition Error : Proto := Class 0 "Error" FunctionPrototype.

(** Modelled from the spec: the [errors] module is not among the sources.
Section 7 of the specification names the taxonomy; every member is an
    [Error] of the framework, built from a message and an optional
    cause. *)
Definition RuntimeError : Proto := Class 0 "RuntimeError" Error.
Definition AssertionError : Proto := Class 0 "AssertionError" RuntimeError.
Definition ConfigurationError : Proto := Class 0 "ConfigurationError" RuntimeError.
Definition ImplementationPendingError : Proto :=
Class 0 "ImplementationPendingError" RuntimeError.
Definition TestCompromisedError : Proto :=
Class 0 "TestCompromisedError" RuntimeError.

(** [new C(message, cause)]. *)
Definition new (C : Proto) (message : string) (cause : option Value) : Value :=
  VObject C message cause.

End Errors.

(* ================================================================= *)
(** * The outcome taxonomy of [../model] *)

Module Model.

(** [ProblemIndication] outcomes carry the error they were made from. *)
Inductive Outcome : Type :=
| ExecutionSuccessful
| ImplementationPending (error : Value)
| ExecutionCompromised (error : Value)
| ExecutionFailedWithAssertionError (error : Value)
| ExecutionFailedWithError (error : Value).

Record Name : Type := MkName { nameValue : string }.

Record CorrelationId : Type := MkCorrelationId { idValue : nat }.

Record Timestamp : Type := MkTimestamp { millis : nat }.

(** The source location an activity was instantiated at. *)
Record FileSystemLocation : Type := MkLocation {
  path : string;
  line : nat;
  column : nat;
}.

Record ActivityDetails : Type := MkActivityDetails {
  detailsName : Name;
  detailsLocation : FileSystemLocation;
}.

End Model.

Import Model.

(* ================================================================= *)
(** * [OutcomeMatcher] *)

Module OutcomeMatcher.
Import TinyTypes Errors.

Definition outcomeFor (error : Value) : Outcome :=
  else_ (fun _ => ExecutionFailedWithError error)
    (when Error (fun _ =>
        if includes "AssertionError" (interpolate (constructorName error))
        then ExecutionFailedWithAssertionError error
        else ExecutionFailedWithError error)
    (when AssertionError (fun _ => ExecutionFailedWithAssertionError error)
    (when TestCompromisedError (fun _ => ExecutionCompromised error)
    (when ImplementationPendingError (fun _ => ImplementationPending error)
    (match_ error))))).

End OutcomeMatcher.

(* ================================================================= *)
(** * Domain events announced while an activity is tracked *)

Module Events.

Inductive DomainEvent : Type :=
| InteractionStarts (sceneId activityId : CorrelationId)
    (details : ActivityDetails) (timestamp : Timestamp)
| InteractionFinished (sceneId activityId : CorrelationId)
    (details : ActivityDetails) (outcome : Outcome) (timestamp : Timestamp)
| TaskStarts (sceneId activityId : CorrelationId)
    (details : ActivityDetails) (timestamp : Timestamp)
| TaskFinished (sceneId activityId : CorrelationId)
    (details : ActivityDetails) (outcome : Outcome) (timestamp : Timestamp).

End Events.

Import Events.

(* ================================================================= *)
(** * Promises, the stage, and the collaborators of an actor *)

(** How a promise settles; a synchronous [throw] inside a [then] callback
    settles the promise the same way as a rejection. *)
Inductive Settled (A : Type) : Type :=
| Fulfilled (result : A)
| Rejected (reason : Value).

Arguments Fulfilled {A} result.
Arguments Rejected {A} reason.

(** Modelled from the spec: the [Stage] class is not among the sources.
    Section 4.4 gives its operations: the current scene id can be read only
    while a scene is active, a fresh activity id is minted per call, an
    announcement never aborts the caller, and [waitForNextCue] is a
    suspension point.  [Env] is the state of everything outside the actor:
    the stage, the crew, the abilities' drivers, the system under test. *)
Class Stage (Env : Type) : Type := {
  currentSceneId : Env -> Settled CorrelationId;
  assignNewActivityId : ActivityDetails -> Env -> CorrelationId * Env;
  announce : DomainEvent -> Env -> Env;
  currentTime : Env -> Timestamp;
  waitForNextCue : Env -> Settled unit * Env;
}.

Module Screenplay.

(** Modelled from the spec: the classes of [../screenplay] are not among
    the sources.  Sections 3 and 6 name the abstract [Ability] root and the
    two variants of an activity; Actor.ts tests for [Ability] and
    [Interaction] with [instanceof]. *)
Definition Ability_ : Proto := Class 0 "Ability" FunctionPrototype.
Definition Activity_ : Proto := Class 0 "Activity" FunctionPrototype.
Definition Interaction : Proto := Class 0 "Interaction" Activity_.
Definition Task : Proto := Class 0 "Task" Activity_.

(** The names the actor probes abilities for. *)
Inductive MethodName : Type :=
| initialise_
| isInitialised_
| discard_.

Section Collaborators.
Variable Env : Type.

(** An object handed to [whoCan]: its constructor, what [io.typeOf] prints
    for it, and the three optional members; [None] stands for a member
    that is absent or not a function. *)
Record Ability : Type := MkAbility {
  abilityConstructor : Proto;
  typeOfText : string;
  isInitialised : option (Env -> bool);
  initialise : option (Env -> Settled unit * Env);
  discard : option (Env -> Settled unit * Env);
}.

Definition isFunction {A : Type} (member : option A) : bool :=
  match member with Some _ => true | None => false end.

(** [typeof ability[methodName] === 'function']. *)
Definition hasFunction (ability : Ability) (methodName : MethodName) : bool :=
  match methodName with
  | initialise_ => isFunction (initialise ability)
  | isInitialised_ => isFunction (isInitialised ability)
  | discard_ => isFunction (discard ability)
  end.

Record Actor : Type := MkActor {
  name : string;
  abilities : Map Ability;
}.

(** An activity: its constructor, the result of [toString()], where it was
    instantiated, and what performing it does to the environment. *)
Record Activity : Type := MkActivity {
  activityConstructor : Proto;
  toString : string;
  instantiationLocation : FileSystemLocation;
  performAs : Actor -> Env -> Settled unit * Env;
}.

(** What [answer] can be handed: [undefined] or [null], or a value seen
    through the two probes of [answer]: whether it has an own property
    [then], and its [answeredBy] member when that is a function.
    [answeredBy] is called synchronously, may act on the environment, and
    is taken to return. *)
Inductive Answerable : Type :=
| Nullish (isNull : bool)
| Thing (hasOwnThen : bool)
    (answeredBy : option (Actor -> Env -> Answerable * Env))
    (payload : Value).

(** The calls the actor and the tracker make to their collaborators, in
    the order they are made. *)
Inductive Call : Type :=
| AssignNewActivityId (details : ActivityDetails)
| Announce (event : DomainEvent)
| WaitForNextCue
| PerformAs (activity : Activity)
| Initialise (ability : Ability)
| Discard (ability : Ability)
| AnsweredBy (question : Answerable).

Record World : Type := MkWorld {
  env : Env;
  journal : list Call;
}.

(** A promise chain, run to completion on the single thread. *)
Definition Promise (A : Type) : Type := World -> Settled A * World.

Definition resolve {A : Type} (a : A) : Promise A :=
  fun w => (Fulfilled a, w).

Definition throw {A : Type} (error : Value) : Promise A :=
  fun w => (Rejected error, w).

Definition then_ {A B : Type} (f : A -> Promise B) (p : Promise A) : Promise B :=
  fun w =>
    match p w with
    | (Fulfilled a, w') => f a w'
    | (Rejected error, w') => (Rejected error, w')
    end.

Definition catch_ {A : Type} (h : Value -> Promise A) (p : Promise A) : Promise A :=
  fun w =>
    match p w with
    | (Fulfilled a, w') => (Fulfilled a, w')
    | (Rejected error, w') => h error w'
    end.

(** A call to a collaborator: it acts on the environment and is entered in
    the journal. *)
Definition call {A : Type} (c : Call) (f : Env -> Settled A * Env) : Promise A :=
  fun w =>
    let (r, e) := f (env w) in
    (r, MkWorld e (journal w ++ [c])%list).

(** Calling a member that is not a function throws a [TypeError]. *)
Definition TypeError : Proto := Class 0 "TypeError" Errors.Error.

Definition invoke {A : Type} (c : Call) (member : option (Env -> Settled A * Env))
    (what : string) : Promise A :=
  match member with
  | Some f => call c f
  | None => throw (Errors.new TypeError (what ++ " is not a function") None)
  end.

End Collaborators.

Arguments resolve {Env A} a.
Arguments throw {Env A} error.
Arguments WaitForNextCue {Env}.
Arguments Announce {Env} event.
Arguments AssignNewActivityId {Env} details.
Arguments Nullish {Env} isNull.

End Screenplay.

Import Screenplay.

(** The outcome of a synchronous call. *)
Inductive Completion (A : Type) : Type :=
| Returned (result : A)
| Threw (error : Value).

Arguments Returned {A} result.
Arguments Threw {A} error.

(** Method chaining: [p |> then_ f |> catch_ h] is [p.then(f).catch(h)]. *)
Notation "p |> m" := (m p) (at level 50, left associativity, only parsing).
Notation "x <- c ;; k" := (then_ (fun x => k) c)
  (at level 61, c at next level, right associativity, only parsing).

(* ================================================================= *)
(** * [ActivityDescriber] *)

Module ActivityDescriber.
Section Describer.
Variable Env : Type.

Definition includeActorName (template : string) (actor : Actor Env) : string :=
  replace template "#actor" (name actor).

(** [({}).toString()] is ["[object Object]"]. *)
Definition describe (activity : Activity Env) (actor : Actor Env) : Name :=
  let template :=
    if String.eqb (toString activity) "[object Object]"
    then "#actor performs " ++ interpolate (nameOf (activityConstructor activity))
    else toString activity in
  MkName (includeActorName template actor).

End Describer.
End ActivityDescriber.

(* ================================================================= *)
(** * [TrackedActivity] *)

Module TrackedActivity.
Section Tracked.
Variable Env : Type.
Context {stage : Stage Env}.

(** A tracker wraps one activity; the stage it reports to is the [Stage]
    instance in scope. *)
Record t : Type := new { activity : Activity Env }.

(** [this.stage.announce(new Event(..., this.stage.currentTime()))]: the
    time is read when the event is built. *)
Definition announceAt (event : Timestamp -> DomainEvent) : Promise Env unit :=
  fun w =>
    let e := event (currentTime (env w)) in
    call (Announce e) (fun s => (Fulfilled tt, announce e s)) w.

Definition performAs (this : t) (actor : Actor Env) : Promise Env unit :=
  let activity := activity this in
  sceneId <- (fun w => (currentSceneId (env w), w)) ;;
  let details :=
    MkActivityDetails
      (ActivityDescriber.describe activity actor)
      (instantiationLocation activity) in
  activityId <- call (AssignNewActivityId details)
                  (fun s => let (id, s') := assignNewActivityId details s in
                            (Fulfilled id, s')) ;;
  let (activityStarts, activityFinished) :=
    if constructedBy (activityConstructor activity) Interaction
    then (InteractionStarts, InteractionFinished)
    else (TaskStarts, TaskFinished) in
  resolve tt
  |> then_ (fun _ => announceAt (activityStarts sceneId activityId details))
  |> then_ (fun _ => call (PerformAs activity) (Screenplay.performAs activity actor))
  |> then_ (fun _ =>
       let outcome := ExecutionSuccessful in
       announceAt (activityFinished sceneId activityId details outcome))
  |> catch_ (fun error =>
       let outcome := OutcomeMatcher.outcomeFor error in
       _ <- announceAt (activityFinished sceneId activityId details outcome) ;;
       throw error).

End Tracked.
End TrackedActivity.

(* ================================================================= *)
(** * [Actor] *)

Module Actor.
Section Methods.
Variable Env : Type.
Context {stage : Stage Env}.

(** [mostGenericTypeOf] climbs [Object.getPrototypeOf] until the parent is
    [null] or [Ability].  Written by cases on the chain; the source's own
    recursion equation is [mostGenericTypeOf_unfold] below. *)
Fixpoint mostGenericTypeOf (abilityType : Proto) : Proto :=
  match abilityType with
  | ObjectPrototype => abilityType
  | FunctionPrototype => ObjectPrototype
  | Class _ _ parentType =>
      if Proto_eqb parentType Ability_
      then abilityType
      else mostGenericTypeOf parentType
  end.

Definition findAbilityTo (actor : Actor Env) (doSomething : Proto)
    : option (Ability Env) :=
  let abilityType := mostGenericTypeOf doSomething in
  get (abilities actor) abilityType.

Definition abilityTo (actor : Actor Env) (abilityType : Proto)
    : Completion (Ability Env) :=
  match findAbilityTo actor abilityType with
  | None =>
      if (0 <? size (abilities actor))%nat then
        Threw (Errors.new Errors.ConfigurationError
          (name actor ++ " can "
             ++ join ", " (map nameOf (keys (abilities actor))) ++ ". "
           ++ "They can't, however, " ++ interpolate (nameOf abilityType) ++ " yet. "
           ++ "Did you give them the ability to do so?") None)
      else
        Threw (Errors.new Errors.ConfigurationError
          (name actor ++ " can't " ++ interpolate (nameOf abilityType) ++ " yet. "
           ++ "Did you give them the ability to do so?") None)
  | Some found => Returned found
  end.

Definition acquireAbility (actor : Actor Env) (ability : Ability Env)
    : Completion (Actor Env) :=
  if negb (constructedBy (abilityConstructor ability) Ability_) then
    Threw (Errors.new Errors.ConfigurationError
      ("Custom abilities must extend Ability from '@serenity-js/core'. Received "
       ++ typeOfText ability) None)
  else
    let abilityType := mostGenericTypeOf (abilityConstructor ability) in
    Returned (MkActor (name actor) (set (abilities actor) abilityType ability)).

(** [whoCan] mutates the actor ability by ability: the result is the actor
    as the call leaves it, with the error that ended the [forEach] early,
    if any. *)
Fixpoint whoCan (actor : Actor Env) (granted : list (Ability Env))
    : Actor Env * option Value :=
  match granted with
  | [] => (actor, None)
  | ability :: rest =>
      match acquireAbility actor ability with
      | Returned actor' => whoCan actor' rest
      | Threw error => (actor, Some error)
      end
  end.

Definition findAbilitiesOfType (actor : Actor Env) (methodNames : list MethodName)
    : list (Ability Env) :=
  filter (fun ability => forallb (hasFunction ability) methodNames)
    (values (abilities actor)).

(** [! ability.isInitialised()], asked of abilities [findAbilitiesOfType]
    has already found to have the method. *)
Definition notInitialised (s : Env) (ability : Ability Env) : bool :=
  match isInitialised ability with
  | Some check => negb (check s)
  | None => false
  end.

(** The list to initialise is computed when [attemptsTo] is called; the
    chain built from it runs afterwards. *)
Definition initialiseAbilities (actor : Actor Env) : Promise Env unit :=
  fun w =>
    fold_left
      (fun (previous : Promise Env unit) ability =>
         previous
         |> then_ (fun _ =>
              invoke (Initialise ability) (initialise ability) "ability.initialise")
         |> catch_ (fun error =>
              throw (Errors.new Errors.TestCompromisedError
                (name actor ++ " couldn't initialise the ability to "
                 ++ interpolate (nameOf (abilityConstructor ability)))
                (Some error))))
      (filter (notInitialised (env w))
         (findAbilitiesOfType actor [initialise_; isInitialised_]))
      (resolve tt)
      w.

Definition attemptsTo (actor : Actor Env) (activities : list (Activity Env))
    : Promise Env unit :=
  fold_left
    (fun (previous : Promise Env unit) current =>
       previous
       |> then_ (fun _ => call WaitForNextCue waitForNextCue)
       |> then_ (fun _ => TrackedActivity.performAs current actor))
    (map (fun activity => TrackedActivity.new activity) activities)
    (initialiseAbilities actor).

(** Before the promise is returned [dismiss] only looks for the abilities
    to discard; every [discard] runs inside a [then] callback, where a
    failure settles the promise instead of reaching the caller as a
    synchronous throw. *)
Definition dismiss (actor : Actor Env) : Promise Env unit :=
  fold_left
    (fun (previous : Promise Env unit) ability =>
       previous
       |> then_ (fun _ =>
            invoke (Discard ability) (discard ability) "ability.discard"))
    (findAbilitiesOfType actor [discard_])
    (resolve tt).

(** ** [answer] *)

Definition isDefined (v : Answerable Env) : bool :=
  match v with
  | Nullish _ => false
  | Thing _ _ _ => true
  end.

(** [Object.prototype.hasOwnProperty.call(v, 'then')].  The test is for an
    own property: a native promise inherits [then] from its prototype,
    does not pass, and reaches [Promise.resolve] below, which hands a
    native promise back unchanged. *)
Definition isAPromise (v : Answerable Env) : bool :=
  match v with
  | Nullish _ => false
  | Thing hasOwnThen _ _ => hasOwnThen
  end.

Definition answeredByOf (v : Answerable Env)
    : option (Actor Env -> Env -> Answerable Env * Env) :=
  match v with
  | Nullish _ => None
  | Thing _ member _ => member
  end.

(** Modelled from the spec: [Question.isAQuestion] is not among the
    sources; by section 6 a Question is an object exposing
    [answeredBy(actor)]. *)
Definition isAQuestion (v : Answerable Env) : bool :=
  isFunction (answeredByOf v).

(** The promise [answer] hands back: the argument itself, or
    [Promise.resolve] of it. *)
Inductive Answer : Type :=
| AsIs (answerable : Answerable Env)
| PromiseResolve (answerable : Answerable Env).

(** [answerable.answeredBy(this)] is read off the value itself, so that the
    recursion on what the question returns is structural; for every value
    it is the member [answeredByOf] gives ([answeredByOf_read] below). *)
Fixpoint answer (actor : Actor Env) (answerable : Answerable Env)
    (w : World Env) {struct answerable} : Answer * World Env :=
  if isDefined answerable && isAPromise answerable then
    (AsIs answerable, w)
  else if isDefined answerable && isAQuestion answerable then
    match answerable with
    | Thing _ (Some answeredBy) _ =>
        let (next, s) := answeredBy actor (env w) in
        answer actor next
          (MkWorld s (journal w ++ [AnsweredBy answerable])%list)
    | _ => (PromiseResolve answerable, w)
    end
  else
    (PromiseResolve answerable, w).

End Methods.
End Actor.

(* ================================================================= *)
(** * A small stage and cast to run the definitions on *)

Module Backstage.

(** Modelled from the spec: a stage in the sense of section 4.4, reduced to
    what the actor touches: the active scene (if any), a counter the
    activity ids are minted from, a clock, the events announced so far,
    and a notebook the sample abilities and activities write in. *)
Record Env : Type := MkEnv {
  scene : option CorrelationId;
  minted : nat;
  clock : nat;
  announced : list DomainEvent;
  notes : list string;
}.

Definition LogicError : Proto := Class 0 "LogicError" Errors.RuntimeError.

#[global] Instance stage : Stage Env := {
  currentSceneId s :=
    match scene s with
    | Some id => Fulfilled id
    | None => Rejected (Errors.new LogicError "No scene is active" None)
    end;
  assignNewActivityId _ s :=
    (MkCorrelationId (minted s),
     MkEnv (scene s) (S (minted s)) (clock s) (announced s) (notes s));
  announce event s :=
    MkEnv (scene s) (minted s) (clock s) (announced s ++ [event])%list (notes s);
  currentTime s := MkTimestamp (clock s);
  waitForNextCue s := (Fulfilled tt, s);
}.

(** Writing a note takes one tick of the clock. *)
Definition note (text : string) (s : Env) : Env :=
  MkEnv (scene s) (minted s) (S (clock s)) (announced s) (notes s ++ [text])%list.

Definition succeed (text : string) (s : Env) : Settled unit * Env :=
  (Fulfilled tt, note text s).

Definition fail (error : Value) (text : string) (s : Env) : Settled unit * Env :=
  (Rejected error, note text s).

Definition noted (text : string) (s : Env) : bool :=
  existsb (String.eqb text) (notes s).

Definition opening : Env := MkEnv (Some (MkCorrelationId 7)) 0 0 [] [].

Definition curtain : World Env := MkWorld opening [].

(** ** Abilities *)

Definition BrowseTheWeb : Proto := Class 0 "BrowseTheWeb" Ability_.
Definition BrowseTheWebWithProtractor : Proto :=
  Class 0 "BrowseTheWebWithProtractor" BrowseTheWeb.
Definition CallAnApi : Proto := Class 0 "CallAnApi" Ability_.
Definition TakeNotes : Proto := Class 0 "TakeNotes" Ability_.
Definition UseDatabase : Proto := Class 0 "UseDatabase" Ability_.

(** An ability with neither lifecycle hook. *)
Definition takeNotes : Ability Env :=
  MkAbility TakeNotes "TakeNotes" None None None.

Definition browseTheWeb : Ability Env :=
  MkAbility BrowseTheWeb "BrowseTheWeb" None None
    (Some (succeed "browser closed")).

Definition browseWithProtractor : Ability Env :=
  MkAbility BrowseTheWebWithProtractor "BrowseTheWebWithProtractor" None None
    (Some (succeed "protractor closed")).

Definition connectionRefused : Value :=
  Errors.new Errors.Error "ECONNREFUSED" None.

(** Initialisable; its [initialise] fails. *)
Definition useDatabase : Ability Env :=
  MkAbility UseDatabase "UseDatabase"
    (Some (noted "database connected"))
    (Some (fail connectionRefused "database unreachable"))
    (Some (fail connectionRefused "database not released")).

(** Initialisable and discardable; both succeed. *)
Definition callAnApi : Ability Env :=
  MkAbility CallAnApi "CallAnApi"
    (Some (noted "api client ready"))
    (Some (succeed "api client ready"))
    (Some (succeed "api client closed")).

Definition Wendy : Actor Env := MkActor "Wendy" [].

(** Wendy after [whoCan(useDatabase, callAnApi)]. *)
Definition WendyWithDrivers : Actor Env :=
  MkActor "Wendy" [(UseDatabase, useDatabase); (CallAnApi, callAnApi)].

(** ** Activities *)

Definition here (n : nat) : FileSystemLocation :=
  MkLocation "spec/screenplay.spec.ts" n 1.

Definition LogIn : Proto := Class 0 "LogIn" Task.
Definition Click : Proto := Class 0 "Click" Interaction.

Definition logIn : Activity Env :=
  MkActivity LogIn "#actor logs in" (here 10)
    (fun _ => succeed "logged in").

Definition boom : Value := Errors.new Errors.Error "boom" None.

Definition click : Activity Env :=
  MkActivity Click "#actor clicks on the button" (here 11)
    (fun _ => fail boom "button missing").

Definition logOut : Activity Env :=
  MkActivity LogIn "#actor logs out" (here 12)
    (fun _ => succeed "logged out").

(** An activity during which the stage moves on to another scene. *)
Definition changeScene : Activity Env :=
  MkActivity LogIn "[object Object]" (here 13)
    (fun _ s =>
       (Fulfilled tt,
        MkEnv (Some (MkCorrelationId 8)) (minted s + 5) (S (clock s))
          (announced s) (notes s))).

(** ** Answerables *)

Definition fortyTwo : Answerable Env := Thing false None (VNumber 42).

Definition theAnswer : Answerable Env :=
  Thing false (Some (fun _ s => (fortyTwo, note "asked" s))) (VString "the answer").

Definition pending : Answerable Env :=
  Thing true None (VString "a promise").

End Backstage.

(* ================================================================= *)
(** * Vocabulary of the statements *)

Module Spec.
Section Vocabulary.
Variable Env : Type.
Context {stage : Stage Env}.

(** The event pair of an activity: Interaction, or Task for anything else. *)
Definition startsOf (activity : Activity Env)
    : CorrelationId -> CorrelationId -> ActivityDetails -> Timestamp -> DomainEvent :=
  if constructedBy (activityConstructor activity) Interaction
  then InteractionStarts else TaskStarts.

Definition finishedOf (activity : Activity Env)
    : CorrelationId -> CorrelationId -> ActivityDetails -> Outcome -> Timestamp
      -> DomainEvent :=
  if constructedBy (activityConstructor activity) Interaction
  then InteractionFinished else TaskFinished.

Definition detailsOf (activity : Activity Env) (actor : Actor Env) : ActivityDetails :=
  MkActivityDetails
    (ActivityDescriber.describe activity actor)
    (instantiationLocation activity).

(** The outcome a Finished event reports for a settled activity. *)
Definition outcomeOf (r : Settled unit) : Outcome :=
  match r with
  | Fulfilled _ => ExecutionSuccessful
  | Rejected error => OutcomeMatcher.outcomeFor error
  end.

(** Section 4.1 of the specification keys an ability by "the most generic
    ancestor type of the ability's concrete type that is still a subtype
    of the abstract Ability root": the class on the chain of [T] that
    extends [Ability] directly. *)
Definition familyRoot (T r : Proto) : Prop :=
  In r (classChain T) /\ getPrototypeOf r = Some Ability_.

(** What granting one ability does to the map. *)
Definition granting (m : Map (Ability Env)) (g : Ability Env) : Map (Ability Env) :=
  set m (Actor.mostGenericTypeOf (abilityConstructor g)) g.

(** Section 9 of the specification reads the [reduce] chains as loops:
    run the body on each element in order, each run awaited before the
    next, and stop at the first that fails. *)
Fixpoint inSequence {X : Type} (body : X -> Promise Env unit) (xs : list X)
    : Promise Env unit :=
  match xs with
  | [] => resolve tt
  | x :: rest => _ <- body x ;; inSequence body rest
  end.

(** [attemptsTo] as a loop: wait for the cue, perform the tracked
    activity. *)
Definition oneAfterAnother (actor : Actor Env) (activities : list (Activity Env))
    : Promise Env unit :=
  inSequence
    (fun activity =>
       _ <- call WaitForNextCue waitForNextCue ;;
       TrackedActivity.performAs (TrackedActivity.new activity) actor)
    activities.

(** Calling one member on each ability of a list. *)
Definition eachInTurn (c : Ability Env -> Call Env)
    (member : Ability Env -> option (Env -> Settled unit * Env))
    (what : string) (todo : list (Ability Env)) : Promise Env unit :=
  inSequence (fun ability => invoke (c ability) (member ability) what) todo.

(** What the [catch] of [initialiseAbilities] throws for an ability. *)
Definition couldNotInitialise (actor : Actor Env) (error : Value)
    (ability : Ability Env) : Value :=
  Errors.new Errors.TestCompromisedError
    (name actor ++ " couldn't initialise the ability to "
     ++ interpolate (nameOf (abilityConstructor ability)))
    (Some error).

(** [initialiseAbilities] as a loop: initialise the abilities in order and
    stop at the first failure; the error is then wrapped by the [catch] of
    the failing ability and by the [catch] of every ability after it. *)
Fixpoint initialiseInTurn (actor : Actor Env) (todo : list (Ability Env))
    : Promise Env unit :=
  match todo with
  | [] => resolve tt
  | ability :: rest =>
      fun w =>
        match invoke (Initialise ability) (initialise ability)
                "ability.initialise" w with
        | (Fulfilled _, w') => initialiseInTurn actor rest w'
        | (Rejected error, w') =>
            (Rejected (fold_left (couldNotInitialise actor) (ability :: rest) error),
             w')
        end
  end.

End Vocabulary.

Arguments granting {Env} m g.
End Spec.

(* ================================================================= *)
(** * [Actor.toString], [Actor.collect], [Actor.nameFrom] *)

Module ActorReporting.

(** Modelled from the spec: the [Artifact] class and the
    [ActivityRelatedArtifactGenerated] event are not among the sources.
    Of an artifact the actor reads [artifact.constructor.name]; the event
    is built from the five arguments [collect] passes. *)
Record Artifact : Type := MkArtifact {
  artifactConstructorName : string;
  base64EncodedValue : string;
}.

Record ActivityRelatedArtifactGenerated : Type := MkArtifactGenerated {
  artifactSceneId : CorrelationId;
  artifactActivityId : CorrelationId;
  artifactName : Name;
  artifactOf : Artifact;
  artifactTimestamp : Timestamp;
}.

(** Modelled from the spec: the two further operations of the [Stage]
    that [collect] uses.  By section 4.4 the current activity id is set
    while an activity is tracked, and an announcement never aborts the
    caller. *)
Class ArtifactStage (Env : Type) : Type := {
  currentActivityId : Env -> Settled CorrelationId;
  announceArtifact : ActivityRelatedArtifactGenerated -> Env -> Env;
}.

(** The optional parameter [name?: string | Name]. *)
Inductive NameArgument : Type :=
| Omitted
| AsString (s : string)
| AsName (n : Name).

(** [name || fallback]: [undefined] and the empty string are falsy, any
    other string and every [Name] object are truthy. *)
Definition orElse (name : NameArgument) (fallback : Name) : string + Name :=
  match name with
  | Omitted => inr fallback
  | AsString s => if String.eqb s "" then inr fallback else inl s
  | AsName n => inr n
  end.

Definition nameFrom (maybeName : string + Name) : Name :=
  match maybeName with
  | inl s => MkName s
  | inr n => n
  end.

Section Reporting.
Variable Env : Type.
Context {stage : Stage Env} {artifacts : ArtifactStage Env}.

(** The arguments of the event are evaluated left to right; a stage that
    cannot give one of the ids throws before anything is announced. *)
Definition collect (actor : Actor Env) (artifact : Artifact) (name : NameArgument)
    (s : Env) : Completion unit * Env :=
  match currentSceneId s with
  | Rejected error => (Threw error, s)
  | Fulfilled sceneId =>
      match currentActivityId s with
      | Rejected error => (Threw error, s)
      | Fulfilled activityId =>
          (Returned tt,
           announceArtifact
             (MkArtifactGenerated sceneId activityId
                (nameFrom (orElse name (MkName (artifactConstructorName artifact))))
                artifact
                (currentTime s))
             s)
      end
  end.

Definition toString (actor : Actor Env) : string :=
  let abilities :=
    map (fun ability => nameOf (abilityConstructor ability))
      (values (abilities actor)) in
  "Actor(name=" ++ name actor ++ ", abilities=[" ++ join ", " abilities ++ "])".

End Reporting.
End ActorReporting.

(* ================================================================= *)
(** * Reading a journal *)

Module Journal.

Definition CorrelationId_eqb (a b : CorrelationId) : bool :=
  Nat.eqb (idValue a) (idValue b).

Definition ActivityDetails_eqb (a b : ActivityDetails) : bool :=
  String.eqb (nameValue (detailsName a)) (nameValue (detailsName b))
  && String.eqb (path (detailsLocation a)) (path (detailsLocation b))
  && Nat.eqb (line (detailsLocation a)) (line (detailsLocation b))
  && Nat.eqb (column (detailsLocation a)) (column (detailsLocation b)).

(** A Starts event and the Finished event of the same kind with the same
    scene id, activity id and details. *)
Definition correlated (starts finished : DomainEvent) : bool :=
  match starts, finished with
  | InteractionStarts s a d _, InteractionFinished s' a' d' _ _
  | TaskStarts s a d _, TaskFinished s' a' d' _ _ =>
      CorrelationId_eqb s s' && CorrelationId_eqb a a' && ActivityDetails_eqb d d'
  | _, _ => false
  end.

(** A run of events made of Starts/Finished pairs, each Finished right
    after its Starts. *)
Fixpoint paired (events : list DomainEvent) : bool :=
  match events with
  | [] => true
  | starts :: finished :: rest => correlated starts finished && paired rest
  | _ => false
  end.

Section Reading.
Variable Env : Type.

(** The activities performed, in the order of the calls. *)
Definition performedIn (calls : list (Call Env)) : list (Activity Env) :=
  flat_map (fun c => match c with PerformAs activity => [activity] | _ => [] end)
    calls.

(** The events announced, in the order of the calls. *)
Definition announcedIn (calls : list (Call Env)) : list DomainEvent :=
  flat_map (fun c => match c with Announce event => [event] | _ => [] end)
    calls.

(** The details activity ids were minted for, in the order of the calls. *)
Definition mintedIn (calls : list (Call Env)) : list ActivityDetails :=
  flat_map
    (fun c => match c with AssignNewActivityId details => [details] | _ => [] end)
    calls.

(** The abilities initialised, in the order of the calls. *)
Definition initialisedIn (calls : list (Call Env)) : list (Ability Env) :=
  flat_map (fun c => match c with Initialise ability => [ability] | _ => [] end)
    calls.

End Reading.
End Journal.

(* ================================================================= *)
(** * The shape of an ability map *)

Module Registry.
Section Shape.
Variable Env : Type.

(** What every map built by [whoCan] satisfies: one entry per key, and
    each entry holds an instance of [Ability] under the most generic type
    of its constructor. *)
Definition wellKeyed (m : Map (Ability Env)) : Prop :=
  NoDup (keys m)
  /\ forall k a, In (k, a) m ->
       k = Actor.mostGenericTypeOf (abilityConstructor a)
       /\ constructedBy (abilityConstructor a) Ability_ = true.

End Shape.
End Registry.

(* ================================================================= *)
(** * More of the sample cast *)

Module Wings.
Import Backstage.

(** Modelled from the spec: the sample stage has no activity of its own
    in progress; it reports the last id minted as the current activity and
    keeps the artifacts announced in its notebook. *)
#[global] Instance artifacts : ActorReporting.ArtifactStage Env := {
  currentActivityId s :=
    match minted s with
    | O => Rejected (Errors.new LogicError "No activity is being performed" None)
    | S n => Fulfilled (MkCorrelationId n)
    end;
  announceArtifact event s :=
    note (nameValue (ActorReporting.artifactName event)) s;
}.

(** Between two scenes. *)
Definition interval : Env := MkEnv None 3 9 [] [].

Definition photo : ActorReporting.Artifact :=
  ActorReporting.MkArtifact "Photo" "iVBORw0KGgo=".

(** A plain object that does not extend [Ability]. *)
Definition notAnAbility : Ability Env :=
  MkAbility (Class 0 "Object" FunctionPrototype) "object" None None None.


(** Initialisable and already initialised at the opening. *)
Definition takeScreenshots : Ability Env :=
  MkAbility (Class 0 "TakeScreenshots" Ability_) "TakeScreenshots"
    (Some (fun _ => true))
    (Some (succeed "camera ready"))
    None.

Definition WendyReady : Actor Env :=
  MkActor "Wendy"
    [(CallAnApi, callAnApi);
     (Class 0 "TakeScreenshots" Ability_, takeScreenshots);
     (TakeNotes, takeNotes)].

Definition describesItself : Activity Env :=
  MkActivity LogIn "#actor greets #actor's friend" (here 14)
    (fun _ => succeed "greeted").

Definition noPlaceholder : Activity Env :=
  MkActivity LogIn "the lights go out" (here 15)
    (fun _ => succeed "dark").

(** A question whose answer is another question. *)
Definition nested : Answerable Env :=
  Thing false (Some (fun _ s => (theAnswer, note "asked first" s)))
    (VString "a question about a question").

End Wings.
(* ================================================================= *)
(** * Facts about the runtime fragment *)

Lemma Proto_eqb_refl (a : Proto) : Proto_eqb a a = true.
Proof.
  induction a as [| | t n p IH]; simpl; auto.
  now rewrite Nat.eqb_refl, String.eqb_refl, IH.
Qed.

Lemma Proto_eqb_eq (a b : Proto) : Proto_eqb a b = true <-> a = b.
Proof.
  split.
  - revert b.
    induction a as [| | t n p IH]; intros [| | t' n' p']; simpl;
      try discriminate; auto.
    intros H.
    apply andb_true_iff in H as [H Hp].
    apply andb_true_iff in H as [Ht Hn].
    apply Nat.eqb_eq in Ht.
    apply String.eqb_eq in Hn.
    apply IH in Hp.
    now subst.
  - intros ->. apply Proto_eqb_refl.
Qed.

Lemma Proto_eqb_neq (a b : Proto) : Proto_eqb a b = false <-> a <> b.
Proof.
  rewrite <- Proto_eqb_eq.
  destruct (Proto_eqb a b); intuition congruence.
Qed.

Lemma Proto_eqb_sym (a b : Proto) : Proto_eqb a b = Proto_eqb b a.
Proof.
  destruct (Proto_eqb a b) eqn:E.
  - apply Proto_eqb_eq in E as ->. now rewrite Proto_eqb_refl.
  - symmetry. apply Proto_eqb_neq. apply Proto_eqb_neq in E. congruence.
Qed.

Lemma constructedBy_In (ctor C : Proto) :
  constructedBy ctor C = true <-> In C (classChain ctor).
Proof.
  unfold constructedBy.
  rewrite existsb_exists.
  split.
  - intros [x [Hin Heq]]. apply Proto_eqb_eq in Heq. now subst.
  - intros Hin. exists C. split; [assumption | apply Proto_eqb_refl].
Qed.

(* ================================================================= *)
(** * [OutcomeMatcher.outcomeFor] *)

(** C1. Every thrown value is given exactly one outcome, and the tests are
    made in this order: an [ImplementationPendingError] is
    [ImplementationPending]; otherwise a [TestCompromisedError] is
    [ExecutionCompromised]; otherwise the framework's [AssertionError] is
    [ExecutionFailedWithAssertionError]; otherwise an [Error] whose
    constructor name matches [/AssertionError/] is
    [ExecutionFailedWithAssertionError]; anything else, [Error] or not, is
    [ExecutionFailedWithError].  The outcome carries the thrown value and
    is never [ExecutionSuccessful]. *)
Theorem outcomeFor_total_and_ordered (e : Value) :
  OutcomeMatcher.outcomeFor e =
    (if instanceOf e Errors.ImplementationPendingError then
       ImplementationPending e
     else if instanceOf e Errors.TestCompromisedError then
       ExecutionCompromised e
     else if instanceOf e Errors.AssertionError then
       ExecutionFailedWithAssertionError e
     else if instanceOf e Errors.Error
             && includes "AssertionError" (interpolate (constructorName e)) then
       ExecutionFailedWithAssertionError e
     else
       ExecutionFailedWithError e)
  /\ OutcomeMatcher.outcomeFor e <> ExecutionSuccessful.
Proof.
  assert (shape :
    OutcomeMatcher.outcomeFor e =
      (if instanceOf e Errors.ImplementationPendingError then
         ImplementationPending e
       else if instanceOf e Errors.TestCompromisedError then
         ExecutionCompromised e
       else if instanceOf e Errors.AssertionError then
         ExecutionFailedWithAssertionError e
       else if instanceOf e Errors.Error
               && includes "AssertionError" (interpolate (constructorName e)) then
         ExecutionFailedWithAssertionError e
       else
         ExecutionFailedWithError e)).
  { unfold OutcomeMatcher.outcomeFor, TinyTypes.else_, TinyTypes.when,
      TinyTypes.match_.
    cbn [TinyTypes.value TinyTypes.rules app find].
    unfold TinyTypes.matches.
    cbn [TinyTypes.pattern].
    destruct (instanceOf e Errors.ImplementationPendingError); [reflexivity |].
    destruct (instanceOf e Errors.TestCompromisedError); [reflexivity |].
    destruct (instanceOf e Errors.AssertionError); [reflexivity |].
    destruct (instanceOf e Errors.Error);
      cbn [andb TinyTypes.transformation]; [| reflexivity].
    now destruct (includes "AssertionError" (interpolate (constructorName e))). }
  split; [exact shape |].
  rewrite shape.
  repeat match goal with
         | |- context [if ?b then _ else _] => destruct b
         end; discriminate.
Qed.

(** The five shapes of section 8, one by one. *)
Example outcomeFor_five_shapes :
  let pendingError :=
    Errors.new Errors.ImplementationPendingError "not implemented yet" None in
  let compromised :=
    Errors.new Errors.TestCompromisedError "database is down" None in
  let assertion := Errors.new Errors.AssertionError "expected 1 to equal 2" None in
  let thirdParty :=
    Errors.new (Class 1 "AssertionError" Errors.Error) "expected true" None in
  let plain := Errors.new Errors.Error "boom" None in
  OutcomeMatcher.outcomeFor pendingError = ImplementationPending pendingError
  /\ OutcomeMatcher.outcomeFor compromised = ExecutionCompromised compromised
  /\ OutcomeMatcher.outcomeFor assertion
     = ExecutionFailedWithAssertionError assertion
  /\ OutcomeMatcher.outcomeFor thirdParty
     = ExecutionFailedWithAssertionError thirdParty
  /\ OutcomeMatcher.outcomeFor plain = ExecutionFailedWithError plain
  /\ OutcomeMatcher.outcomeFor (VString "boom")
     = ExecutionFailedWithError (VString "boom").
Proof. repeat split. Qed.

(* ================================================================= *)
(** * [TrackedActivity.performAs] *)

Section TrackedActivityFacts.
Variable Env : Type.
Context {stage : Stage Env}.

Lemma app4 (A : Type) (l : list A) (a b c d : A) :
  ((((l ++ [a]) ++ [b]) ++ [c]) ++ [d] = l ++ [a; b; c; d])%list.
Proof. now rewrite <- !app_assoc. Qed.

(** One tracked invocation, scene id in hand: the id is minted, Starts is
    announced, the activity runs, Finished is announced, and the wrapper
    settles the way the activity did. *)
Lemma tracked_run (activity : Activity Env) (actor : Actor Env) (w : World Env)
    (sceneId activityId : CorrelationId) (s1 s3 : Env) (r : Settled unit) :
  let details := Spec.detailsOf activity actor in
  let starts := Spec.startsOf activity sceneId activityId details (currentTime s1) in
  let finished :=
    Spec.finishedOf activity sceneId activityId details (Spec.outcomeOf r)
      (currentTime s3) in
  currentSceneId (env w) = Fulfilled sceneId ->
  assignNewActivityId details (env w) = (activityId, s1) ->
  Screenplay.performAs activity actor (announce starts s1) = (r, s3) ->
  TrackedActivity.performAs (TrackedActivity.new activity) actor w =
    (r, MkWorld (announce finished s3)
          (journal w ++ [AssignNewActivityId details; Announce starts;
                         PerformAs activity; Announce finished])%list).
Proof.
  intros details starts finished Hscene Hmint Hrun.
  subst details starts finished.
  unfold TrackedActivity.performAs, Spec.startsOf, Spec.finishedOf,
    Spec.detailsOf in *.
  cbn [TrackedActivity.activity].
  unfold then_ at 1. rewrite Hscene.
  unfold then_ at 1. unfold call at 1. rewrite Hmint.
  destruct (constructedBy (activityConstructor activity) Interaction);
    unfold catch_, then_, resolve, TrackedActivity.announceAt, call, throw;
    cbn [env journal]; rewrite Hrun;
    destruct r as [[] | error]; cbn [env journal Spec.outcomeOf];
    now rewrite app4.
Qed.

End TrackedActivityFacts.

(** C2. When the wrapped activity's [performAs] fails with [e], the tracker
    announces the Finished event of the activity's kind
    ([InteractionFinished] or [TaskFinished]) with the outcome classified
    from [e], as the last call it makes, and then rejects with that very
    [e]. *)
Theorem tracked_failure_is_announced_then_rethrown
    (Env : Type) (stage : Stage Env)
    (activity : Activity Env) (actor : Actor Env) (w : World Env)
    (sceneId activityId : CorrelationId) (s1 s3 : Env) (e : Value) :
  let details := Spec.detailsOf activity actor in
  let starts := Spec.startsOf activity sceneId activityId details (currentTime s1) in
  let finished :=
    Spec.finishedOf activity sceneId activityId details
      (OutcomeMatcher.outcomeFor e) (currentTime s3) in
  currentSceneId (env w) = Fulfilled sceneId ->
  assignNewActivityId details (env w) = (activityId, s1) ->
  Screenplay.performAs activity actor (announce starts s1) = (Rejected e, s3) ->
  TrackedActivity.performAs (TrackedActivity.new activity) actor w =
    (Rejected e,
     MkWorld (announce finished s3)
       (journal w ++ [AssignNewActivityId details; Announce starts;
                      PerformAs activity; Announce finished])%list).
Proof.
  intros details starts finished Hscene Hmint Hrun.
  exact (tracked_run activity actor w Hscene Hmint Hrun).
Qed.

(** C10. In one tracked invocation the Starts and the Finished event carry
    the same scene id (the one current when the invocation began), the
    same activity id (the one minted for it) and the same
    [ActivityDetails], whether the activity succeeds or fails and whatever
    it does to the stage in between. *)
Theorem tracked_events_correlate
    (Env : Type) (stage : Stage Env)
    (activity : Activity Env) (actor : Actor Env) (w : World Env)
    (sceneId : CorrelationId) :
  currentSceneId (env w) = Fulfilled sceneId ->
  let details := Spec.detailsOf activity actor in
  let activityId := fst (assignNewActivityId details (env w)) in
  let settled := TrackedActivity.performAs (TrackedActivity.new activity) actor w in
  exists startedAt finishedAt : Timestamp,
    journal (snd settled) =
      (journal w ++
       [AssignNewActivityId details;
        Announce (Spec.startsOf activity sceneId activityId details startedAt);
        PerformAs activity;
        Announce (Spec.finishedOf activity sceneId activityId details
                    (Spec.outcomeOf (fst settled)) finishedAt)])%list.
Proof.
  intros Hscene details activityId settled.
  subst activityId settled.
  destruct (assignNewActivityId details (env w)) as [activityId s1] eqn:Hmint.
  cbn [fst].
  destruct (Screenplay.performAs activity actor
              (announce (Spec.startsOf activity sceneId activityId details
                           (currentTime s1)) s1)) as [r s3] eqn:Hrun.
  exists (currentTime s1), (currentTime s3).
  now rewrite (tracked_run activity actor w Hscene Hmint Hrun).
Qed.

(* ================================================================= *)
(** * Promise chains built by [reduce] *)

Section Chains.
Variable Env : Type.
Context {stage : Stage Env}.

Lemma then_fulfilled (A B : Type) (p : Promise Env A) (f : A -> Promise Env B)
    (w w' : World Env) (a : A) :
  p w = (Fulfilled a, w') -> (p |> then_ f) w = f a w'.
Proof. intros H. unfold then_. now rewrite H. Qed.

(** A chain [xs.reduce((previous, x) => step(previous, x), seed)] whose
    step only ever appends to [previous] with [then] is the loop over
    [xs], started once [seed] has fulfilled. *)
Lemma reduce_is_loop (X : Type)
    (step : Promise Env unit -> X -> Promise Env unit)
    (body : X -> Promise Env unit) :
  (forall previous x w,
      step previous x w = (previous |> then_ (fun _ => body x)) w) ->
  forall xs seed w,
    fold_left step xs seed w
    = (seed |> then_ (fun _ => Spec.inSequence body xs)) w.
Proof.
  intros Hstep xs.
  induction xs as [| x rest IH]; intros seed w; cbn [fold_left Spec.inSequence].
  - unfold then_, resolve. now destruct (seed w) as [[[] | e] w'].
  - rewrite IH. unfold then_. rewrite Hstep. unfold then_.
    destruct (seed w) as [[[] | e] w']; [| reflexivity].
    now destruct (body x w') as [[[] | e] w''].
Qed.

Lemma then_ext_callback (A B : Type) (p : Promise Env A)
    (f g : A -> Promise Env B) (w : World Env) :
  (forall a w', f a w' = g a w') -> (p |> then_ f) w = (p |> then_ g) w.
Proof.
  intros H. unfold then_. destruct (p w) as [[a | e] w']; [apply H | reflexivity].
Qed.

Lemma inSequence_map (X Y : Type) (wrap : X -> Y) (body : Y -> Promise Env unit)
    (xs : list X) (w : World Env) :
  Spec.inSequence body (map wrap xs) w
  = Spec.inSequence (fun x => body (wrap x)) xs w.
Proof.
  revert w.
  induction xs as [| x xs IH]; intros w; cbn [map Spec.inSequence];
    [reflexivity |].
  apply then_ext_callback. intros [] w'. apply IH.
Qed.

Lemma attemptsTo_is_loop (actor : Actor Env) (activities : list (Activity Env))
    (w : World Env) :
  Actor.attemptsTo actor activities w
  = (Actor.initialiseAbilities actor
     |> then_ (fun _ => Spec.oneAfterAnother actor activities)) w.
Proof.
  unfold Actor.attemptsTo, Spec.oneAfterAnother.
  rewrite reduce_is_loop
    with (body := fun current =>
                    call WaitForNextCue waitForNextCue
                    |> then_ (fun _ => TrackedActivity.performAs current actor)).
  - apply then_ext_callback. intros [] w'. apply inSequence_map.
  - intros previous x w0. unfold then_.
    now destruct (previous w0) as [[[] | e] w'].
Qed.

Lemma inSequence_app (X : Type) (body : X -> Promise Env unit)
    (xs ys : list X) (w : World Env) :
  Spec.inSequence body (xs ++ ys) w
  = (Spec.inSequence body xs |> then_ (fun _ => Spec.inSequence body ys)) w.
Proof.
  revert w.
  induction xs as [| x rest IH]; intros w; cbn [app Spec.inSequence].
  - reflexivity.
  - unfold then_.
    destruct (body x w) as [[[] | e] w']; [| reflexivity].
    rewrite IH. reflexivity.
Qed.

End Chains.

(* ================================================================= *)
(** * [Actor.attemptsTo] *)

(** C5. [attemptsTo] is the ability-initialisation step followed by the
    activities one after another in the given order, a cue-wait before
    each; and when the activities before [failing] have all succeeded and
    [failing] rejects with [e], the whole chain rejects with [e] in the
    very world [failing] left behind, so that nothing listed after it is
    run, whatever it is. *)
Theorem attemptsTo_sequential_and_fail_fast
    (Env : Type) (stage : Stage Env) (actor : Actor Env)
    (before after : list (Activity Env)) (failing : Activity Env)
    (w w1 w2 w3 : World Env) (e : Value) :
  Actor.attemptsTo actor before w = (Fulfilled tt, w1) ->
  call WaitForNextCue waitForNextCue w1 = (Fulfilled tt, w2) ->
  TrackedActivity.performAs (TrackedActivity.new failing) actor w2 = (Rejected e, w3) ->
  (forall activities w0,
      Actor.attemptsTo actor activities w0
      = (Actor.initialiseAbilities actor
         |> then_ (fun _ => Spec.oneAfterAnother actor activities)) w0)
  /\ Actor.attemptsTo actor (before ++ failing :: after) w = (Rejected e, w3).
Proof.
  intros Hbefore Hcue Hfail.
  split; [intros; apply attemptsTo_is_loop |].
  rewrite attemptsTo_is_loop in Hbefore |- *.
  unfold then_ in Hbefore |- *.
  destruct (Actor.initialiseAbilities actor w) as [[[] | e0] w0];
    [| discriminate].
  unfold Spec.oneAfterAnother in *.
  rewrite inSequence_app.
  erewrite then_fulfilled by exact Hbefore.
  cbn [Spec.inSequence].
  unfold then_.
  rewrite Hcue, Hfail. reflexivity.
Qed.

(* ================================================================= *)
(** * [Actor.dismiss] and [Actor.initialiseAbilities] *)

Section Lifecycle.
Variable Env : Type.
Context {stage : Stage Env}.

Lemma findAbilitiesOfType_discard (actor : Actor Env) :
  Actor.findAbilitiesOfType actor [discard_]
  = filter (fun ability => isFunction (discard ability))
      (values (abilities actor)).
Proof.
  unfold Actor.findAbilitiesOfType.
  apply filter_ext. intros a. cbn. now rewrite andb_true_r.
Qed.

Lemma findAbilitiesOfType_has (actor : Actor Env) (methodNames : list MethodName)
    (ability : Ability Env) (methodName : MethodName) :
  In ability (Actor.findAbilitiesOfType actor methodNames) ->
  In methodName methodNames ->
  hasFunction ability methodName = true.
Proof.
  unfold Actor.findAbilitiesOfType.
  intros Hin Hname.
  apply filter_In in Hin as [_ Hall].
  rewrite forallb_forall in Hall. now apply Hall.
Qed.

Lemma dismiss_is_loop (actor : Actor Env) (w : World Env) :
  Actor.dismiss actor w
  = Spec.eachInTurn (@Discard Env) (@discard Env) "ability.discard"
      (Actor.findAbilitiesOfType actor [discard_]) w.
Proof.
  unfold Actor.dismiss, Spec.eachInTurn.
  rewrite reduce_is_loop
    with (body := fun ability =>
                    invoke (Discard ability) (discard ability) "ability.discard")
    by reflexivity.
  reflexivity.
Qed.

(** The journal of a loop of calls: the calls made are those on a prefix
    of the list, in order; the prefix is the whole list when the loop
    fulfils, and ends with the ability whose call rejected otherwise. *)
Lemma eachInTurn_journal (c : Ability Env -> Call Env)
    (member : Ability Env -> option (Env -> Settled unit * Env))
    (what : string) (todo : list (Ability Env)) :
  (forall a, In a todo -> isFunction (member a) = true) ->
  forall w,
  exists done rest : list (Ability Env),
    todo = (done ++ rest)%list
    /\ journal (snd (Spec.eachInTurn c member what todo w))
       = (journal w ++ map c done)%list
    /\ match fst (Spec.eachInTurn c member what todo w) with
       | Fulfilled _ => rest = []
       | Rejected e =>
           exists earlier a f s,
             done = (earlier ++ [a])%list
             /\ member a = Some f
             /\ fst (f s) = Rejected e
       end.
Proof.
  unfold Spec.eachInTurn.
  induction todo as [| a todo IH]; intros Hall w.
  - exists [], []. cbn. now rewrite app_nil_r.
  - assert (Ha : isFunction (member a) = true) by (apply Hall; now left).
    destruct (member a) as [f |] eqn:Hf; [clear Ha | discriminate].
    cbn [Spec.inSequence]. unfold then_.
    assert (Hcall :
      invoke (c a) (member a) what w
      = (fst (f (env w)),
         MkWorld (snd (f (env w))) (journal w ++ [c a])%list)).
    { unfold invoke, call. rewrite Hf. now destruct (f (env w)). }
    rewrite Hcall.
    destruct (f (env w)) as [[[] | e] s] eqn:Hrun; cbn [fst snd].
    + destruct (IH (fun b Hb => Hall b (or_intror Hb))
                  (MkWorld s (journal w ++ [c a])%list))
        as (done & rest & Hsplit & Hjournal & Hend).
      exists (a :: done), rest.
      split; [now rewrite Hsplit |].
      split; [rewrite Hjournal; cbn [journal map]; now rewrite <- app_assoc |].
      destruct (fst (Spec.inSequence _ todo _)) as [[] | e]; [assumption |].
      destruct Hend as (earlier & b & g & t & Hdone & Hg & Hrej).
      exists (a :: earlier), b, g, t. now rewrite Hdone.
    + exists [a], todo. cbn [fst snd journal map app].
      repeat split.
      exists [], a, f, (env w). now rewrite Hrun.
Qed.

(** The chain of [initialiseAbilities], from any point on: a fulfilled
    promise goes on initialising; a rejected one is wrapped once by every
    ability still on the list, none of which is initialised. *)
Lemma initialise_chain_run (actor : Actor Env) (todo : list (Ability Env)) :
  forall (previous : Promise Env unit) (w : World Env),
  fold_left
    (fun (previous : Promise Env unit) ability =>
       previous
       |> then_ (fun _ =>
            invoke (Initialise ability) (initialise ability) "ability.initialise")
       |> catch_ (fun error =>
            throw (Errors.new Errors.TestCompromisedError
              (name actor ++ " couldn't initialise the ability to "
               ++ interpolate (nameOf (abilityConstructor ability)))
              (Some error))))
    todo previous w
  = match previous w with
    | (Fulfilled _, w') => Spec.initialiseInTurn actor todo w'
    | (Rejected e, w') =>
        (Rejected (fold_left (Spec.couldNotInitialise actor) todo e), w')
    end.
Proof.
  induction todo as [| a todo IH]; intros previous w;
    cbn [fold_left Spec.initialiseInTurn].
  - unfold resolve. now destruct (previous w) as [[[] | e] w'].
  - rewrite IH. unfold catch_, then_, throw.
    destruct (previous w) as [[[] | e] w']; [| reflexivity].
    now destruct (invoke (Initialise a) (initialise a) "ability.initialise" w')
      as [[[] | e] w''].
Qed.

Lemma initialiseAbilities_is_loop (actor : Actor Env) (w : World Env) :
  Actor.initialiseAbilities actor w
  = Spec.initialiseInTurn actor
      (filter (Actor.notInitialised (env w))
         (Actor.findAbilitiesOfType actor [initialise_; isInitialised_]))
      w.
Proof.
  unfold Actor.initialiseAbilities. now rewrite initialise_chain_run.
Qed.

(** When initialisation succeeds, every ability that was to be initialised
    has had [initialise] called, in order, and nothing else was called. *)
Lemma initialiseInTurn_fulfilled (actor : Actor Env) (todo : list (Ability Env)) :
  forall w w',
    Spec.initialiseInTurn actor todo w = (Fulfilled tt, w') ->
    journal w' = (journal w ++ map (@Initialise Env) todo)%list.
Proof.
  induction todo as [| a todo IH]; intros w w'; cbn [Spec.initialiseInTurn map].
  - intros [= <-]. now rewrite app_nil_r.
  - unfold invoke.
    destruct (initialise a) as [f |]; [| discriminate].
    unfold call.
    destruct (f (env w)) as [[[] | e] s]; [| discriminate].
    intros H. apply IH in H. rewrite H. cbn [journal].
    now rewrite <- app_assoc.
Qed.

End Lifecycle.

(** C8, as amended. [dismiss] never throws synchronously: it returns the
    one promise that calls [discard] on the held abilities exposing it,
    and on no other, in the map's iteration order, each call awaited
    before the next, up to and including the first call that fails.  When
    no call fails every such ability is discarded and the promise fulfils;
    when one fails the promise rejects with that failure and the abilities
    after it are left alone. *)
Theorem dismiss_discards_in_turn_until_failure
    (Env : Type) (stage : Stage Env) (actor : Actor Env) (w : World Env) :
  let discardable :=
    filter (fun ability => isFunction (discard ability))
      (values (abilities actor)) in
  Actor.dismiss actor w
  = Spec.eachInTurn (@Discard Env) (@discard Env) "ability.discard" discardable w
  /\ exists done rest : list (Ability Env),
       discardable = (done ++ rest)%list
       /\ journal (snd (Actor.dismiss actor w))
          = (journal w ++ map (@Discard Env) done)%list
       /\ match fst (Actor.dismiss actor w) with
          | Fulfilled _ => rest = []
          | Rejected e =>
              exists earlier a f s,
                done = (earlier ++ [a])%list
                /\ discard a = Some f
                /\ fst (f s) = Rejected e
          end.
Proof.
  intros discardable. subst discardable.
  rewrite <- findAbilitiesOfType_discard.
  split; [apply dismiss_is_loop |].
  rewrite dismiss_is_loop.
  apply eachInTurn_journal.
  intros a Hin.
  apply (findAbilitiesOfType_has actor [discard_] a discard_ Hin).
  now left.
Qed.

(** C8, as stated, fails: Wendy holds two discardable abilities; the
    [discard] of the first rejects, and the second is never discarded. *)
Lemma dismiss_skips_abilities_after_a_failure :
  ~ (forall ability,
        In ability (values (abilities Backstage.WendyWithDrivers)) ->
        isFunction (discard ability) = true ->
        In (Discard ability)
           (journal (snd (Actor.dismiss Backstage.WendyWithDrivers
                            Backstage.curtain)))).
Proof.
  intros claim.
  assert (Hjournal :
    journal (snd (Actor.dismiss Backstage.WendyWithDrivers Backstage.curtain))
    = [Discard Backstage.useDatabase]) by reflexivity.
  assert (Hin : In (Discard Backstage.callAnApi) [Discard Backstage.useDatabase]).
  { rewrite <- Hjournal. apply claim; [cbn; auto | reflexivity]. }
  destruct Hin as [Heq | []].
  apply (f_equal (fun c : Call Backstage.Env =>
                    match c with
                    | Discard a => typeOfText a
                    | _ => ""
                    end)) in Heq.
  cbv in Heq. discriminate Heq.
Qed.

(** C6, at the failing input. Wendy holds two abilities to initialise;
    [initialise] of the first, UseDatabase, fails with ECONNREFUSED.  The
    chain rejects with a [TestCompromisedError] that names CallAnApi, which
    was never initialised, and whose cause is not ECONNREFUSED but a second
    [TestCompromisedError], the one that names UseDatabase. *)
Theorem initialise_failure_is_blamed_on_the_last_ability :
  let settled :=
    Actor.attemptsTo Backstage.WendyWithDrivers [Backstage.logIn]
      Backstage.curtain in
  fst settled
  = Rejected
      (Errors.new Errors.TestCompromisedError
         "Wendy couldn't initialise the ability to CallAnApi"
         (Some (Errors.new Errors.TestCompromisedError
                  "Wendy couldn't initialise the ability to UseDatabase"
                  (Some Backstage.connectionRefused))))
  /\ journal (snd settled) = [Initialise Backstage.useDatabase].
Proof. split; reflexivity. Qed.

(* ================================================================= *)
(** * Class chains and [mostGenericTypeOf] *)

Lemma superclasses_classChain (A B : Proto) :
  In A (superclasses B) -> In A (classChain B).
Proof.
  destruct B as [| | t n p]; cbn; auto.
Qed.

Lemma classChain_trans (A B C : Proto) :
  In A (classChain B) -> In C (classChain A) -> In C (classChain B).
Proof.
  induction B as [| | t n p IH]; cbn [classChain]; intros HA HC.
  - destruct HA.
  - destruct HA.
  - destruct HA as [<- | HA]; [exact HC |].
    right. now apply IH.
Qed.

Lemma classChain_length (A B : Proto) :
  In A (superclasses B) ->
  List.length (classChain A) < List.length (classChain B).
Proof.
  induction B as [| | t n p IH]; cbn [superclasses]; intros HA.
  - destruct HA.
  - destruct HA.
  - destruct p as [| | t' n' p'].
    + destruct HA.
    + destruct HA.
    + cbn [classChain] in HA. destruct HA as [<- | HA].
      * cbn [classChain List.length]. lia.
      * specialize (IH HA). cbn [classChain List.length] in *. lia.
Qed.

Lemma superclasses_irrefl (A : Proto) : ~ In A (superclasses A).
Proof.
  intros H. apply classChain_length in H. lia.
Qed.

(** The recursion equation of the source: the parent is read with
    [Object.getPrototypeOf], the climb stops when it is [null] or
    [Ability]. *)
Lemma mostGenericTypeOf_unfold (abilityType : Proto) :
  Actor.mostGenericTypeOf abilityType =
    match getPrototypeOf abilityType with
    | None => abilityType
    | Some parentType =>
        if Proto_eqb parentType Ability_
        then abilityType
        else Actor.mostGenericTypeOf parentType
    end.
Proof. destruct abilityType; reflexivity. Qed.

(** [Ability] itself has no key of its own: the climb passes
    [Function.prototype] and ends on [Object.prototype]. *)
Example mostGenericTypeOf_Ability :
  Actor.mostGenericTypeOf Ability_ = ObjectPrototype.
Proof. reflexivity. Qed.

(** A class below [Ability] and any of its subclasses are stored under the
    same key. *)
Lemma mostGenericTypeOf_subclass (A B : Proto) :
  In A (classChain B) ->
  In Ability_ (superclasses A) ->
  Actor.mostGenericTypeOf B = Actor.mostGenericTypeOf A.
Proof.
  intros HA HAbility.
  induction B as [| | t n p IH]; cbn [classChain] in HA;
    [destruct HA | destruct HA |].
  destruct HA as [<- | HA]; [reflexivity |].
  cbn [Actor.mostGenericTypeOf].
  destruct (Proto_eqb p Ability_) eqn:Hp; [| now apply IH].
  apply Proto_eqb_eq in Hp. subst p.
  cbn in HA. destruct HA as [<- | []].
  now apply superclasses_irrefl in HAbility.
Qed.

(** Below [Ability], the key is the family root of section 4.1, and
    nothing else is. *)
Lemma mostGenericTypeOf_familyRoot (T : Proto) :
  In Ability_ (superclasses T) ->
  Spec.familyRoot T (Actor.mostGenericTypeOf T).
Proof.
  unfold Spec.familyRoot.
  induction T as [| | t n p IH]; cbn [superclasses]; intros H;
    [destruct H | destruct H |].
  cbn [Actor.mostGenericTypeOf classChain].
  destruct (Proto_eqb p Ability_) eqn:Hp.
  - apply Proto_eqb_eq in Hp. subst p. split; [now left | reflexivity].
  - assert (Hsuper : In Ability_ (superclasses p)).
    { destruct p as [| | t' n' p']; [destruct H | destruct H |].
      cbn [classChain] in H. destruct H as [H | H]; [| exact H].
      rewrite <- H in Hp. now rewrite Proto_eqb_refl in Hp. }
    destruct (IH Hsuper) as [Hin Hparent].
    split; [now right | exact Hparent].
Qed.

Lemma familyRoot_unique (T r : Proto) :
  Spec.familyRoot T r -> r = Actor.mostGenericTypeOf T.
Proof.
  unfold Spec.familyRoot.
  induction T as [| | t n p IH]; cbn [classChain]; intros [Hin Hparent];
    [destruct Hin | destruct Hin |].
  cbn [Actor.mostGenericTypeOf].
  destruct (Proto_eqb p Ability_) eqn:Hp.
  - apply Proto_eqb_eq in Hp. subst p.
    destruct Hin as [Hin | Hin]; [now symmetry |].
    cbn in Hin. destruct Hin as [<- | []]. discriminate Hparent.
  - destruct Hin as [<- | Hin]; [| now apply IH].
    cbn in Hparent. injection Hparent as ->.
    now rewrite Proto_eqb_refl in Hp.
Qed.

(* ================================================================= *)
(** * The ability map *)

Section MapFacts.
Variable V : Type.

Lemma get_set_same (m : Map V) (k : Proto) (v : V) :
  get (set m k v) k = Some v.
Proof.
  induction m as [| [k' v'] m IH]; cbn.
  - now rewrite Proto_eqb_refl.
  - destruct (Proto_eqb k' k) eqn:E; cbn; now rewrite E.
Qed.

Lemma get_set_other (m : Map V) (k k' : Proto) (v : V) :
  k <> k' -> get (set m k v) k' = get m k'.
Proof.
  intros Hne.
  induction m as [| [k0 v0] m IH]; cbn.
  - apply Proto_eqb_neq in Hne. now rewrite Hne.
  - destruct (Proto_eqb k0 k) eqn:E; cbn.
    + apply Proto_eqb_eq in E. subst k0.
      apply Proto_eqb_neq in Hne. now rewrite Hne.
    + now rewrite IH.
Qed.

Lemma keys_set (m : Map V) (k : Proto) (v : V) :
  keys (set m k v) = if existsb (Proto_eqb k) (keys m)
                     then keys m
                     else (keys m ++ [k])%list.
Proof.
  induction m as [| [k0 v0] m IH]; cbn; [reflexivity |].
  rewrite (Proto_eqb_sym k k0).
  destruct (Proto_eqb k0 k) eqn:E; cbn; [reflexivity |].
  unfold keys in IH |- *. rewrite IH.
  now destruct (existsb (Proto_eqb k) (map fst m)).
Qed.

Lemma In_keys_set (m : Map V) (k r : Proto) (v : V) :
  In r (keys (set m k v)) <-> In r (keys m) \/ r = k.
Proof.
  rewrite keys_set.
  destruct (existsb (Proto_eqb k) (keys m)) eqn:E.
  - split; [auto |]. intros [H | ->]; [exact H |].
    apply existsb_exists in E as [x [Hx Heq]].
    apply Proto_eqb_eq in Heq. now subst.
  - rewrite in_app_iff. cbn. intuition congruence.
Qed.

Lemma NoDup_keys_set (m : Map V) (k : Proto) (v : V) :
  NoDup (keys m) -> NoDup (keys (set m k v)).
Proof.
  intros Hnd. rewrite keys_set.
  destruct (existsb (Proto_eqb k) (keys m)) eqn:E; [exact Hnd |].
  apply NoDup_app; [exact Hnd | repeat constructor; intros [] |].
  intros x Hx [Heq | []]. subst x.
  assert (Hex : existsb (Proto_eqb k) (keys m) = true).
  { apply existsb_exists. exists k. split; [exact Hx | apply Proto_eqb_refl]. }
  congruence.
Qed.

End MapFacts.

(* ================================================================= *)
(** * [Actor.whoCan] and [Actor.abilityTo] *)

Section AbilityRegistry.
Variable Env : Type.

Lemma below_Ability_constructedBy (T : Proto) :
  In Ability_ (superclasses T) -> constructedBy T Ability_ = true.
Proof.
  intros H. apply constructedBy_In. now apply superclasses_classChain.
Qed.

Lemma whoCan_grants (granted : list (Ability Env)) :
  Forall (fun g => In Ability_ (superclasses (abilityConstructor g))) granted ->
  forall actor : Actor Env,
    Actor.whoCan actor granted
    = (MkActor (name actor) (fold_left Spec.granting granted (abilities actor)), None).
Proof.
  induction 1 as [| g granted Hg _ IH]; intros actor; cbn [Actor.whoCan fold_left].
  - now destruct actor.
  - unfold Actor.acquireAbility.
    rewrite (below_Ability_constructedBy _ Hg). cbn [negb].
    now rewrite IH.
Qed.

Lemma In_keys_granting (granted : list (Ability Env)) (m : Map (Ability Env))
    (r : Proto) :
  In r (keys (fold_left Spec.granting granted m))
  <-> In r (keys m)
      \/ exists g, In g granted
                   /\ r = Actor.mostGenericTypeOf (abilityConstructor g).
Proof.
  revert m.
  induction granted as [| g granted IH]; intros m; cbn [fold_left].
  - split; [auto | intros [H | (g & [] & _)]; exact H].
  - rewrite IH. unfold Spec.granting. rewrite In_keys_set.
    split.
    + intros [[H | ->] | (g' & Hin & ->)]; eauto 6 using in_eq, in_cons.
    + intros [H | (g' & [<- | Hin] & ->)]; eauto 6.
Qed.

Lemma NoDup_keys_granting (granted : list (Ability Env)) (m : Map (Ability Env)) :
  NoDup (keys m) -> NoDup (keys (fold_left Spec.granting granted m)).
Proof.
  revert m.
  induction granted as [| g granted IH]; intros m Hnd; cbn [fold_left];
    [exact Hnd |].
  apply IH. now apply NoDup_keys_set.
Qed.

Lemma get_granting_others (later : list (Ability Env)) (m : Map (Ability Env))
    (k : Proto) :
  (forall l, In l later -> Actor.mostGenericTypeOf (abilityConstructor l) <> k) ->
  get (fold_left Spec.granting later m) k = get m k.
Proof.
  revert m.
  induction later as [| l later IH]; intros m Hothers; cbn [fold_left];
    [reflexivity |].
  rewrite IH by (intros; apply Hothers; now right).
  apply get_set_other. apply Hothers. now left.
Qed.

End AbilityRegistry.

(** C3. With [B] a strict subclass of [A], and [A] below the abstract
    [Ability]: granting an instance [b] of [B] and then resolving [A]
    returns [b].  And after any sequence of grants to a new actor, none of
    which raises an error, the keys of the ability map are exactly the
    family roots of the abilities granted, each key once, and the entry of
    a family holds the ability granted last in that family. *)
Theorem abilities_resolve_covariantly_one_per_family
    (Env : Type) (actor : Actor Env) (A B : Proto) (b : Ability Env)
    (actorName : string) (granted : list (Ability Env)) :
  In A (superclasses B) ->
  In Ability_ (superclasses A) ->
  abilityConstructor b = B ->
  Forall (fun g => In Ability_ (superclasses (abilityConstructor g))) granted ->
  (let (actor', error) := Actor.whoCan actor [b] in
   error = None /\ Actor.abilityTo actor' A = Returned b)
  /\ (let (actor', error) := Actor.whoCan (MkActor actorName []) granted in
      error = None
      /\ NoDup (keys (abilities actor'))
      /\ (forall r,
             In r (keys (abilities actor'))
             <-> exists g, In g granted
                           /\ Spec.familyRoot (abilityConstructor g) r)
      /\ (forall earlier g later r,
             granted = (earlier ++ g :: later)%list ->
             Spec.familyRoot (abilityConstructor g) r ->
             (forall l, In l later ->
                        ~ Spec.familyRoot (abilityConstructor l) r) ->
             get (abilities actor') r = Some g)).
Proof.
  intros HBA HA Hb Hgranted.
  assert (HB : In Ability_ (superclasses (abilityConstructor b))).
  { rewrite Hb.
    destruct B as [| | t n p]; cbn [superclasses] in HBA |- *;
      [destruct HBA | destruct HBA |].
    apply (classChain_trans A); [exact HBA |].
    now apply superclasses_classChain. }
  split.
  - rewrite whoCan_grants by (constructor; [exact HB | constructor]).
    split; [reflexivity |].
    unfold Actor.abilityTo, Actor.findAbilityTo.
    cbn [fold_left abilities]. unfold Spec.granting.
    rewrite Hb.
    rewrite (mostGenericTypeOf_subclass A B)
      by (auto using superclasses_classChain).
    now rewrite get_set_same.
  - rewrite whoCan_grants by exact Hgranted.
    cbn [abilities name].
    assert (Hbelow : forall g, In g granted ->
                       In Ability_ (superclasses (abilityConstructor g))).
    { now apply Forall_forall. }
    assert (Hroot : forall g r, In g granted ->
              (Spec.familyRoot (abilityConstructor g) r
               <-> r = Actor.mostGenericTypeOf (abilityConstructor g))).
    { intros g r Hin. split.
      - apply familyRoot_unique.
      - intros ->. apply mostGenericTypeOf_familyRoot. now apply Hbelow. }
    split; [reflexivity |].
    split; [apply NoDup_keys_granting; constructor |].
    split.
    + intros r. rewrite In_keys_granting. cbn [keys map].
      split.
      * intros [[] | (g & Hin & Hr)]. exists g. split; [exact Hin |].
        now apply Hroot.
      * intros (g & Hin & Hr). right. exists g. split; [exact Hin |].
        now apply Hroot.
    + intros earlier g later r Hsplit Hr Hlater.
      assert (Hin : In g granted).
      { rewrite Hsplit. apply in_or_app. right. now left. }
      apply Hroot in Hr; [| exact Hin]. subst r.
      rewrite Hsplit, fold_left_app. cbn [fold_left].
      rewrite get_granting_others.
      * unfold Spec.granting. apply get_set_same.
      * intros l Hl Heq. apply (Hlater l Hl).
        apply Hroot; [| now symmetry].
        rewrite Hsplit. apply in_or_app. right. now right.
Qed.

(* ================================================================= *)
(** * Strings *)

Lemma append_assoc (a b c : string) : (a ++ b) ++ c = a ++ (b ++ c).
Proof. induction a as [| x a IH]; cbn; [reflexivity | now rewrite IH]. Qed.

Lemma append_nil_r (a : string) : a ++ "" = a.
Proof. induction a as [| x a IH]; cbn; [reflexivity | now rewrite IH]. Qed.

Lemma startsWith_append (p s : string) : startsWith p (p ++ s) = true.
Proof.
  induction p as [| c p IH]; cbn; [reflexivity |].
  now rewrite Ascii.eqb_refl, IH.
Qed.

Lemma startsWith_split (p s : string) :
  startsWith p s = true -> s = p ++ drop (String.length p) s.
Proof.
  revert s.
  induction p as [| c p IH]; intros s H; cbn in *; [reflexivity |].
  destruct s as [| d s]; [discriminate |].
  apply andb_true_iff in H as [Hc Hp].
  apply Ascii.eqb_eq in Hc. subst d.
  cbn. f_equal. now apply IH.
Qed.

Lemma includes_intro (needle before after : string) :
  includes needle (before ++ needle ++ after) = true.
Proof.
  induction before as [| c before IH]; cbn [append].
  - destruct (needle ++ after) eqn:E; cbn [includes];
      rewrite <- E; now rewrite startsWith_append.
  - cbn [includes]. rewrite IH.
    now destruct (startsWith needle (String c (before ++ needle ++ after))).
Qed.

Lemma includes_elim (needle s : string) :
  includes needle s = true ->
  exists before after, s = before ++ needle ++ after.
Proof.
  induction s as [| c s IH]; cbn [includes].
  - destruct (startsWith needle "") eqn:E; [| discriminate].
    intros _. exists "", (drop (String.length needle) "").
    now apply startsWith_split.
  - destruct (startsWith needle (String c s)) eqn:E.
    + intros _. exists "", (drop (String.length needle) (String c s)).
      now apply startsWith_split.
    + intros H. destruct (IH H) as (before & after & ->).
      now exists (String c before), after.
Qed.

(** Text that occurs in a part occurs in the whole. *)
Lemma includes_within (needle a s b : string) :
  includes needle s = true -> includes needle (a ++ s ++ b) = true.
Proof.
  intros H. apply includes_elim in H as (before & after & ->).
  replace (a ++ (before ++ needle ++ after) ++ b)
    with ((a ++ before) ++ needle ++ (after ++ b)).
  - apply includes_intro.
  - now rewrite !append_assoc.
Qed.

Lemma includes_after (needle a s : string) :
  includes needle s = true -> includes needle (a ++ s) = true.
Proof.
  intros H. rewrite <- (append_nil_r s). now apply includes_within.
Qed.

Lemma includes_before (needle s b : string) :
  includes needle s = true -> includes needle (s ++ b) = true.
Proof.
  intros H. now apply (includes_within _ "").
Qed.

Lemma includes_self (s : string) : includes s s = true.
Proof.
  rewrite <- (append_nil_r s) at 2.
  apply (includes_intro s "" "").
Qed.

Lemma includes_join (sep : string) (x : option string) (xs : list (option string)) :
  In x xs -> includes (joinItem x) (join sep xs) = true.
Proof.
  induction xs as [| y xs IH]; intros Hin; [destruct Hin |].
  cbn [join].
  destruct Hin as [-> | Hin].
  - destruct xs as [| z xs]; [apply includes_self |].
    apply (includes_intro (joinItem x) "").
  - destruct xs as [| z xs]; [destruct Hin |].
    now apply includes_after, includes_after, IH.
Qed.

(* ================================================================= *)
(** * [Actor.abilityTo], when the ability is missing *)

(** C4. Resolving an ability type the actor does not hold (under the
    most-generic-ancestor lookup) throws a [ConfigurationError].  With no
    abilities at all the message is "<name> can't <T> yet. Did you give
    them the ability to do so?"; with some, the message first lists the
    name of every ability type the actor has, and then says that <T> is
    not among them. *)
Theorem abilityTo_missing_throws_ConfigurationError
    (Env : Type) (actor : Actor Env) (tag : nat) (T : string) (parent : Proto) :
  let abilityType := Class tag T parent in
  Actor.findAbilityTo actor abilityType = None ->
  exists message,
    Actor.abilityTo actor abilityType
    = Threw (Errors.new Errors.ConfigurationError message None)
    /\ (abilities actor = [] ->
        message
        = name actor ++ " can't " ++ T
          ++ " yet. Did you give them the ability to do so?")
    /\ (abilities actor <> [] ->
        message
        = name actor ++ " can "
          ++ join ", " (map nameOf (keys (abilities actor)))
          ++ ". They can't, however, " ++ T
          ++ " yet. Did you give them the ability to do so?"
        /\ forall held, In held (keys (abilities actor)) ->
                        includes (joinItem (nameOf held)) message = true).
Proof.
  intros abilityType Hmissing.
  unfold Actor.abilityTo. rewrite Hmissing.
  destruct (abilities actor) as [| entry others] eqn:Hheld.
  - cbn [size List.length Nat.ltb Nat.leb].
    eexists. split; [reflexivity |].
    split; [intros _ | intros H; now contradiction H].
    reflexivity.
  - cbn [size List.length Nat.ltb Nat.leb].
    eexists. split; [reflexivity |].
    split; [discriminate | intros _].
    split; [reflexivity |].
    intros held Hin.
    apply includes_after, includes_after, includes_before.
    apply includes_join. now apply in_map.
Qed.

(** The scenario of section 8: Wendy, holding nothing, resolves CallAnApi. *)
Example Wendy_cannot_CallAnApi_yet :
  exists message,
    Actor.abilityTo Backstage.Wendy Backstage.CallAnApi
    = Threw (Errors.new Errors.ConfigurationError message None)
    /\ includes "Wendy can't CallAnApi yet." message = true.
Proof. eexists. split; reflexivity. Qed.

(* ================================================================= *)
(** * [Actor.answer] *)

Section Answering.
Variable Env : Type.

Lemma answeredByOf_read (hasOwnThen : bool)
    (member : option (Actor Env -> Env -> Answerable Env * Env))
    (payload : Value) :
  Actor.answeredByOf (Thing hasOwnThen member payload) = member.
Proof. reflexivity. Qed.

(** [answer] only ever adds to the journal. *)
Lemma answer_journal_grows (actor : Actor Env) :
  forall (answerable : Answerable Env) (w : World Env),
  exists more,
    journal (snd (Actor.answer actor answerable w)) = (journal w ++ more)%list.
Proof.
  fix IH 1.
  intros [isNull | hasOwnThen [f |] payload] w.
  - exists []. cbn. now rewrite app_nil_r.
  - destruct hasOwnThen.
    + exists []. cbn. now rewrite app_nil_r.
    + cbn.
      destruct (f actor (env w)) as [next s].
      destruct (IH next (MkWorld s (journal w ++ [AnsweredBy (Thing false (Some f) payload)])%list))
        as [more Hmore].
      exists (AnsweredBy (Thing false (Some f) payload) :: more).
      rewrite Hmore. cbn [journal]. now rewrite <- app_assoc.
  - exists []. destruct hasOwnThen; cbn; now rewrite app_nil_r.
Qed.

End Answering.

(** C7. [answer] tests in this order.  A defined value with an own [then]
    is handed back as it is.  Otherwise a Question, a defined value whose
    [answeredBy] is a function, has [answeredBy] called with this actor,
    and what it returns is answered in turn; the call is on record.
    Otherwise the value goes to [Promise.resolve] unchanged. *)
Theorem answer_dispatches_in_order
    (Env : Type) (actor : Actor Env) (answerable : Answerable Env)
    (w : World Env) :
  (Actor.isDefined answerable && Actor.isAPromise answerable = true ->
   Actor.answer actor answerable w = (Actor.AsIs answerable, w))
  /\ (Actor.isDefined answerable && Actor.isAPromise answerable = false ->
      Actor.isDefined answerable && Actor.isAQuestion answerable = true ->
      exists answeredBy,
        Actor.answeredByOf answerable = Some answeredBy
        /\ Actor.answer actor answerable w
           = (let (next, s) := answeredBy actor (env w) in
              Actor.answer actor next
                (MkWorld s (journal w ++ [AnsweredBy answerable])%list))
        /\ In (AnsweredBy answerable)
              (journal (snd (Actor.answer actor answerable w))))
  /\ (Actor.isDefined answerable && Actor.isAPromise answerable = false ->
      Actor.isDefined answerable && Actor.isAQuestion answerable = false ->
      Actor.answer actor answerable w = (Actor.PromiseResolve answerable, w)).
Proof.
  destruct answerable as [isNull | hasOwnThen [f |] payload].
  - repeat split; try discriminate; reflexivity.
  - destruct hasOwnThen; repeat split; try discriminate; try reflexivity.
    intros _ _. exists f.
    split; [reflexivity |].
    split; [reflexivity |].
    cbn.
    destruct (f actor (env w)) as [next s].
    destruct (answer_journal_grows actor next
                (MkWorld s (journal w ++ [AnsweredBy (Thing false (Some f) payload)])%list))
      as [more Hmore].
    rewrite Hmore. cbn [journal].
    apply in_or_app. left. apply in_or_app. right. now left.
  - destruct hasOwnThen; repeat split; try discriminate; reflexivity.
Qed.

(* ================================================================= *)
(** * [ActivityDescriber.describe] *)

Lemma splitAtFirst_split (pat s before after : string) :
  splitAtFirst pat s = Some (before, after) -> s = before ++ pat ++ after.
Proof.
  revert before.
  induction s as [| c s IH]; intros before; cbn [splitAtFirst].
  - destruct (startsWith pat "") eqn:E; [| discriminate].
    intros [= <- <-]. now apply startsWith_split.
  - destruct (startsWith pat (String c s)) eqn:E.
    + intros [= <- <-]. now apply startsWith_split.
    + destruct (splitAtFirst pat s) as [[b a] |]; [| discriminate].
      intros [= <- <-]. cbn. f_equal. now apply IH.
Qed.

(** A replacement text without a dollar sign is inserted as it is. *)
Lemma getSubstitution_plain (matched before after replacement : string) :
  includes "$" replacement = false ->
  getSubstitution matched before after replacement = replacement.
Proof.
  induction replacement as [| c rest IH]; [reflexivity |].
  cbn [includes startsWith].
  rewrite andb_true_r.
  destruct (Ascii.eqb "$" c) eqn:Hc; [discriminate |].
  intros Hrest.
  cbn [getSubstitution].
  destruct (Ascii.eqb c "$") eqn:Hc'.
  - apply Ascii.eqb_eq in Hc'. subst c. discriminate Hc.
  - f_equal. now apply IH.
Qed.

(** For an actor whose name has no dollar sign the describer does what
    section 4.2 says: the template is ["#actor performs <constructor>"]
    when [toString()] gives the default of a plain object and the
    activity's own text otherwise, and its first [#actor] gives way to the
    actor's name. *)
Lemma describe_plain_name (Env : Type) (activity : Activity Env) (actor : Actor Env) :
  includes "$" (name actor) = false ->
  let template :=
    if String.eqb (toString activity) "[object Object]"
    then "#actor performs " ++ interpolate (nameOf (activityConstructor activity))
    else toString activity in
  ActivityDescriber.describe activity actor
  = MkName match splitAtFirst "#actor" template with
           | Some (before, after) => before ++ name actor ++ after
           | None => template
           end.
Proof.
  intros Hplain template.
  unfold ActivityDescriber.describe, ActivityDescriber.includeActorName, replace.
  fold template.
  destruct (splitAtFirst "#actor" template) as [[before after] |]; [| reflexivity].
  now rewrite getSubstitution_plain.
Qed.

(** C9, at the failing input. The activity describes itself as
    ["#actor logs in"] and the actor is called ["Ca$$h"]: the name that
    comes out is ["Ca$h logs in"], one dollar sign short of the actor's
    name, because [String.prototype.replace] reads [$$] in the
    replacement text as an escape. *)
Theorem describe_rewrites_dollar_signs_in_actor_name :
  ActivityDescriber.describe Backstage.logIn (MkActor "Ca$$h" [])
  = MkName "Ca$h logs in"
  /\ ActivityDescriber.describe Backstage.logIn (MkActor "Ca$$h" [])
     <> MkName "Ca$$h logs in".
Proof. split; [reflexivity | discriminate]. Qed.

(* ================================================================= *)
(** * More about the ability registry *)

Section RegistryInvariants.
Variable Env : Type.

(** [instanceof Ability] is all [whoCan] asks of a value. *)
Lemma whoCan_accepts (granted : list (Ability Env)) :
  Forall (fun g => constructedBy (abilityConstructor g) Ability_ = true) granted ->
  forall actor : Actor Env,
    Actor.whoCan actor granted
    = (MkActor (name actor) (fold_left Spec.granting granted (abilities actor)), None).
Proof.
  induction 1 as [| g granted Hg _ IH]; intros actor; cbn [Actor.whoCan fold_left].
  - now destruct actor.
  - unfold Actor.acquireAbility. rewrite Hg. cbn [negb]. now rewrite IH.
Qed.

Lemma In_set (m : Map (Ability Env)) (k k0 : Proto) (a v : Ability Env) :
  In (k, a) (set m k0 v) -> (k, a) = (k0, v) \/ In (k, a) m.
Proof.
  induction m as [| [k' v'] m IH]; cbn.
  - intros [H | []]. left. now symmetry.
  - destruct (Proto_eqb k' k0) eqn:E; cbn.
    + apply Proto_eqb_eq in E. subst k'.
      intros [H | H]; [left; now symmetry | right; now right].
    + intros [H | H]; [right; now left |].
      destruct (IH H) as [H' | H']; [now left | right; now right].
Qed.

Lemma get_of_entry (m : Map (Ability Env)) (k : Proto) (a : Ability Env) :
  NoDup (keys m) -> In (k, a) m -> get m k = Some a.
Proof.
  induction m as [| [k' v'] m IH]; cbn; intros Hnd Hin; [destruct Hin |].
  inversion Hnd as [| ? ? Hfresh Hrest]; subst.
  destruct Hin as [[= -> ->] | Hin].
  - now rewrite Proto_eqb_refl.
  - destruct (Proto_eqb k' k) eqn:E; [| now apply IH].
    apply Proto_eqb_eq in E. subst k'.
    exfalso. apply Hfresh. change k with (fst (k, a)). now apply in_map.
Qed.

Lemma get_missing (m : Map (Ability Env)) (k : Proto) :
  ~ In k (keys m) -> get m k = None.
Proof.
  induction m as [| [k' v'] m IH]; cbn; intros Hout; [reflexivity |].
  destruct (Proto_eqb k' k) eqn:E.
  - apply Proto_eqb_eq in E. subst k'. exfalso. apply Hout. now left.
  - apply IH. intros H. apply Hout. now right.
Qed.

Lemma wellKeyed_acquire (actor actor' : Actor Env) (g : Ability Env) :
  Registry.wellKeyed (abilities actor) ->
  Actor.acquireAbility actor g = Returned actor' ->
  Registry.wellKeyed (abilities actor').
Proof.
  unfold Actor.acquireAbility.
  destruct (constructedBy (abilityConstructor g) Ability_) eqn:Hg; cbn [negb];
    [| discriminate].
  unfold Registry.wellKeyed.
  intros [Hnd Hentries] [= <-]. cbn [abilities].
  split; [now apply NoDup_keys_set |].
  intros k a Hin. apply In_set in Hin as [[= -> ->] | Hin]; auto.
Qed.

Lemma wellKeyed_whoCan (granted : list (Ability Env)) :
  forall actor : Actor Env,
    Registry.wellKeyed (abilities actor) ->
    Registry.wellKeyed (abilities (fst (Actor.whoCan actor granted))).
Proof.
  induction granted as [| g granted IH]; intros actor Hinv; cbn [Actor.whoCan];
    [exact Hinv |].
  destruct (Actor.acquireAbility actor g) as [actor' | error] eqn:Hg;
    [| exact Hinv].
  apply IH. exact (wellKeyed_acquire actor g Hinv Hg).
Qed.

End RegistryInvariants.

(** X1. [whoCan] takes the abilities in order and stops at the first
    value that is not an instance of [Ability]: it throws a
    [ConfigurationError] that says what it received, the abilities before
    that value stay granted, and those after it are not looked at. *)
Theorem whoCan_stops_at_the_first_stranger
    (Env : Type) (actor : Actor Env)
    (accepted rest : list (Ability Env)) (stranger : Ability Env) :
  Forall (fun g => constructedBy (abilityConstructor g) Ability_ = true) accepted ->
  constructedBy (abilityConstructor stranger) Ability_ = false ->
  Actor.whoCan actor (accepted ++ stranger :: rest)
  = (fst (Actor.whoCan actor accepted),
     Some (Errors.new Errors.ConfigurationError
             ("Custom abilities must extend Ability from '@serenity-js/core'. Received "
              ++ typeOfText stranger) None))
  /\ snd (Actor.whoCan actor accepted) = None.
Proof.
  intros Haccepted Hstranger.
  split; [| now rewrite whoCan_accepts].
  revert actor.
  induction Haccepted as [| g accepted Hg _ IH]; intros actor;
    cbn [app Actor.whoCan].
  - unfold Actor.acquireAbility. now rewrite Hstranger.
  - unfold Actor.acquireAbility. rewrite Hg. cbn [negb]. apply IH.
Qed.

(** X2. Granting an ability leaves the other families alone: a type that
    resolved before the grant, and whose most generic ancestor differs
    from that of the new ability, resolves to the same instance after
    it. *)
Theorem whoCan_keeps_other_families
    (Env : Type) (actor : Actor Env) (b found : Ability Env) (T : Proto) :
  constructedBy (abilityConstructor b) Ability_ = true ->
  Actor.mostGenericTypeOf T
    <> Actor.mostGenericTypeOf (abilityConstructor b) ->
  Actor.abilityTo actor T = Returned found ->
  Actor.abilityTo (fst (Actor.whoCan actor [b])) T = Returned found.
Proof.
  intros Hb Hother.
  rewrite whoCan_accepts by (constructor; [exact Hb | constructor]).
  cbn [fst fold_left].
  unfold Actor.abilityTo, Actor.findAbilityTo, Spec.granting.
  cbn [abilities].
  rewrite get_set_other by congruence.
  destruct (get (abilities actor) (Actor.mostGenericTypeOf T)) as [x |];
    [trivial |].
  now destruct (0 <? size (abilities actor))%nat.
Qed.

(** X3. Whatever is handed to [whoCan] of a new actor, every ability the
    actor holds afterwards is an instance of [Ability] and is what
    [abilityTo] returns for its own constructor. *)
Theorem held_abilities_resolve_by_their_own_type
    (Env : Type) (actorName : string) (granted : list (Ability Env))
    (held : Ability Env) :
  In held (values (abilities (fst (Actor.whoCan (MkActor actorName []) granted)))) ->
  constructedBy (abilityConstructor held) Ability_ = true
  /\ Actor.abilityTo (fst (Actor.whoCan (MkActor actorName []) granted))
       (abilityConstructor held)
     = Returned held.
Proof.
  intros Hheld.
  assert (Hinv : Registry.wellKeyed
            (abilities (fst (Actor.whoCan (MkActor actorName []) granted)))).
  { apply wellKeyed_whoCan. split; [constructor | intros k a []]. }
  unfold Registry.wellKeyed in Hinv.
  destruct Hinv as [Hnd Hentries].
  unfold values in Hheld. apply in_map_iff in Hheld as ([k a] & Heq & Hin).
  cbn in Heq. subst a.
  destruct (Hentries k held Hin) as [Hk Hinstance].
  split; [exact Hinstance |].
  unfold Actor.abilityTo, Actor.findAbilityTo.
  rewrite <- Hk. now erewrite get_of_entry by eassumption.
Qed.

(** [mostGenericTypeOf] goes nowhere from where it has stopped. *)
Lemma mostGenericTypeOf_idempotent (T : Proto) :
  Actor.mostGenericTypeOf (Actor.mostGenericTypeOf T)
  = Actor.mostGenericTypeOf T.
Proof.
  induction T as [| | t n p IH]; cbn [Actor.mostGenericTypeOf];
    [reflexivity | reflexivity |].
  destruct (Proto_eqb p Ability_) eqn:Hp; [| exact IH].
  cbn [Actor.mostGenericTypeOf]. now rewrite Hp.
Qed.

Lemma mostGenericTypeOf_outside (T : Proto) :
  Actor.mostGenericTypeOf T = ObjectPrototype
  <-> ~ In Ability_ (superclasses T).
Proof.
  induction T as [| | t n p IH]; cbn [Actor.mostGenericTypeOf superclasses].
  - split; [intros _ [] | reflexivity].
  - split; [intros _ [] | reflexivity].
  - destruct (Proto_eqb p Ability_) eqn:Hp.
    + apply Proto_eqb_eq in Hp. subst p.
      split; [discriminate |].
      intros H. exfalso. apply H. cbn. now left.
    + rewrite IH.
      destruct p as [| | t' n' p']; cbn [classChain superclasses];
        [tauto | tauto |].
      split.
      * intros H [Heq | Hin]; [| now apply H].
        rewrite <- Heq in Hp. now rewrite Proto_eqb_refl in Hp.
      * intros H Hin. apply H. now right.
Qed.

(** X4. [mostGenericTypeOf] is idempotent; below [Ability] it ends on the
    class that extends [Ability] directly; for [Ability] itself and for
    every type outside the hierarchy it ends on [Object.prototype]. *)
Theorem mostGenericTypeOf_ends_on_a_root (T : Proto) :
  Actor.mostGenericTypeOf (Actor.mostGenericTypeOf T)
  = Actor.mostGenericTypeOf T
  /\ (In Ability_ (superclasses T) ->
      In (Actor.mostGenericTypeOf T) (classChain T)
      /\ getPrototypeOf (Actor.mostGenericTypeOf T) = Some Ability_)
  /\ (~ In Ability_ (superclasses T) ->
      Actor.mostGenericTypeOf T = ObjectPrototype).
Proof.
  split; [apply mostGenericTypeOf_idempotent |].
  split; [apply mostGenericTypeOf_familyRoot | apply mostGenericTypeOf_outside].
Qed.

(** X5. An actor who was granted instances of subclasses of [Ability]
    only cannot resolve [Ability] itself, nor any type outside the
    hierarchy: [abilityTo] throws a [ConfigurationError]. *)
Theorem abilityTo_outside_the_hierarchy_throws
    (Env : Type) (actorName : string) (granted : list (Ability Env)) (T : Proto) :
  Forall (fun g => In Ability_ (superclasses (abilityConstructor g))) granted ->
  ~ In Ability_ (superclasses T) ->
  exists message,
    Actor.abilityTo (fst (Actor.whoCan (MkActor actorName []) granted)) T
    = Threw (Errors.new Errors.ConfigurationError message None).
Proof.
  intros Hgranted Houtside.
  rewrite whoCan_grants by exact Hgranted.
  cbn [fst abilities].
  unfold Actor.abilityTo, Actor.findAbilityTo.
  apply mostGenericTypeOf_outside in Houtside. rewrite Houtside.
  rewrite get_missing.
  - destruct (0 <? size _)%nat; eexists; reflexivity.
  - intros Hkeys. apply In_keys_granting in Hkeys.
    destruct Hkeys as [[] | (g & Hin & Hkey)].
    rewrite Forall_forall in Hgranted.
    symmetry in Hkey. apply mostGenericTypeOf_outside in Hkey.
    now apply Hkey, Hgranted.
Qed.

(* ================================================================= *)
(** * More about tracked activities and [attemptsTo] *)

Section JournalFacts.
Variable Env : Type.
Context {stage : Stage Env}.

Lemma CorrelationId_eqb_refl (a : CorrelationId) :
  Journal.CorrelationId_eqb a a = true.
Proof. apply Nat.eqb_refl. Qed.

Lemma ActivityDetails_eqb_refl (d : ActivityDetails) :
  Journal.ActivityDetails_eqb d d = true.
Proof.
  unfold Journal.ActivityDetails_eqb.
  now rewrite !String.eqb_refl, !Nat.eqb_refl.
Qed.

Lemma startsOf_finishedOf_correlated (activity : Activity Env)
    (sceneId activityId : CorrelationId) (details : ActivityDetails)
    (outcome : Outcome) (startedAt finishedAt : Timestamp) :
  Journal.correlated
    (Spec.startsOf activity sceneId activityId details startedAt)
    (Spec.finishedOf activity sceneId activityId details outcome finishedAt)
  = true.
Proof.
  unfold Spec.startsOf, Spec.finishedOf.
  destruct (constructedBy (activityConstructor activity) Interaction);
    cbn [Journal.correlated];
    now rewrite !CorrelationId_eqb_refl, ActivityDetails_eqb_refl.
Qed.

(** A tracked invocation either stops at the scene id, leaving the world
    as it found it, or makes its four calls. *)
Lemma tracked_cases (activity : Activity Env) (actor : Actor Env) (w : World Env) :
  (exists e,
      currentSceneId (env w) = Rejected e
      /\ TrackedActivity.performAs (TrackedActivity.new activity) actor w
         = (Rejected e, w))
  \/ (exists sceneId activityId startedAt finishedAt r s,
        TrackedActivity.performAs (TrackedActivity.new activity) actor w
        = (r, MkWorld s
                (journal w ++
                 [AssignNewActivityId (Spec.detailsOf activity actor);
                  Announce (Spec.startsOf activity sceneId activityId
                              (Spec.detailsOf activity actor) startedAt);
                  PerformAs activity;
                  Announce (Spec.finishedOf activity sceneId activityId
                              (Spec.detailsOf activity actor)
                              (Spec.outcomeOf r) finishedAt)])%list)).
Proof.
  destruct (currentSceneId (env w)) as [sceneId | e] eqn:Hscene.
  - right.
    destruct (assignNewActivityId (Spec.detailsOf activity actor) (env w))
      as [activityId s1] eqn:Hmint.
    destruct (Screenplay.performAs activity actor
                (announce (Spec.startsOf activity sceneId activityId
                             (Spec.detailsOf activity actor) (currentTime s1)) s1))
      as [r s3] eqn:Hrun.
    exists sceneId, activityId, (currentTime s1), (currentTime s3), r.
    eexists.
    exact (tracked_run activity actor w Hscene Hmint Hrun).
  - left. exists e. split; [reflexivity |].
    unfold TrackedActivity.performAs, then_. now rewrite Hscene.
Qed.

Lemma inSequence_cons (X : Type) (body : X -> Promise Env unit)
    (x : X) (rest : list X) (w : World Env) :
  Spec.inSequence body (x :: rest) w
  = match body x w with
    | (Fulfilled _, w') => Spec.inSequence body rest w'
    | (Rejected e, w') => (Rejected e, w')
    end.
Proof. reflexivity. Qed.

(** What one run of the activity loop adds to the journal. *)
Lemma oneAfterAnother_journal (actor : Actor Env) (activities : list (Activity Env)) :
  forall w,
  exists (done rest : list (Activity Env)) (added : list (Call Env)),
    activities = (done ++ rest)%list
    /\ journal (snd (Spec.oneAfterAnother actor activities w))
       = (journal w ++ added)%list
    /\ Journal.performedIn added = done
    /\ Journal.mintedIn added = map (fun a => Spec.detailsOf a actor) done
    /\ Journal.paired (Journal.announcedIn added) = true
    /\ Journal.initialisedIn added = []
    /\ (fst (Spec.oneAfterAnother actor activities w) = Fulfilled tt -> rest = []).
Proof.
  unfold Spec.oneAfterAnother.
  set (body := fun activity : Activity Env =>
                 _ <- call WaitForNextCue waitForNextCue ;;
                 TrackedActivity.performAs (TrackedActivity.new activity) actor).
  induction activities as [| a activities IH]; intros w.
  - exists [], [], []. cbn. rewrite app_nil_r. repeat split.
  - rewrite inSequence_cons.
    assert (Hbody :
      body a w
      = match waitForNextCue (env w) with
        | (Fulfilled _, s1) =>
            TrackedActivity.performAs (TrackedActivity.new a) actor
              (MkWorld s1 (journal w ++ [WaitForNextCue])%list)
        | (Rejected e, s1) =>
            (Rejected e, MkWorld s1 (journal w ++ [WaitForNextCue])%list)
        end).
    { unfold body, then_, call.
      now destruct (waitForNextCue (env w)) as [[[] | e] s1]. }
    rewrite Hbody. clear Hbody.
    destruct (waitForNextCue (env w)) as [[[] | e] s1].
    + destruct (tracked_cases a actor (MkWorld s1 (journal w ++ [WaitForNextCue])%list))
        as [(e & _ & Hstop) | (sceneId & activityId & t1 & t2 & r & s & Hrun)].
      * rewrite Hstop.
        exists [], (a :: activities), [WaitForNextCue].
        cbn. repeat split. discriminate.
      * rewrite Hrun. cbn [journal] in *.
        destruct r as [[] | e].
        -- destruct (IH (MkWorld s
                      ((journal w ++ [WaitForNextCue]) ++
                       [AssignNewActivityId (Spec.detailsOf a actor);
                        Announce (Spec.startsOf a sceneId activityId
                                    (Spec.detailsOf a actor) t1);
                        PerformAs a;
                        Announce (Spec.finishedOf a sceneId activityId
                                    (Spec.detailsOf a actor)
                                    (Spec.outcomeOf (Fulfilled tt)) t2)])%list))
             as (done & rest & added & Hsplit & Hjournal & Hdone & Hminted
                 & Hpaired & Hinit & Hall).
           exists (a :: done), rest,
             (WaitForNextCue
              :: AssignNewActivityId (Spec.detailsOf a actor)
              :: Announce (Spec.startsOf a sceneId activityId
                             (Spec.detailsOf a actor) t1)
              :: PerformAs a
              :: Announce (Spec.finishedOf a sceneId activityId
                             (Spec.detailsOf a actor)
                             (Spec.outcomeOf (Fulfilled tt)) t2)
              :: added).
           unfold Journal.performedIn, Journal.mintedIn, Journal.announcedIn,
             Journal.initialisedIn in *.
           split; [cbn; now rewrite Hsplit |].
           split; [rewrite Hjournal; cbn [journal]; now rewrite <- !app_assoc |].
           split; [cbn [flat_map app]; now rewrite Hdone |].
           split; [cbn [flat_map app map]; now rewrite Hminted |].
           split; [cbn [flat_map app Journal.paired];
                   now rewrite startsOf_finishedOf_correlated |].
           split; [exact Hinit | exact Hall].
        -- exists [a], activities,
             [WaitForNextCue;
              AssignNewActivityId (Spec.detailsOf a actor);
              Announce (Spec.startsOf a sceneId activityId
                          (Spec.detailsOf a actor) t1);
              PerformAs a;
              Announce (Spec.finishedOf a sceneId activityId
                          (Spec.detailsOf a actor)
                          (Spec.outcomeOf (Rejected e)) t2)].
           cbn [fst snd journal].
           split; [reflexivity |].
           split; [now rewrite <- app_assoc |].
           split; [reflexivity |].
           split; [reflexivity |].
           split; [cbn; now rewrite startsOf_finishedOf_correlated |].
           split; [reflexivity | discriminate].
    + exists [], (a :: activities), [WaitForNextCue].
      cbn. repeat split. discriminate.
Qed.

(** What the initialisation loop adds to the journal, and how it ends. *)
Lemma initialiseInTurn_journal (actor : Actor Env) (todo : list (Ability Env)) :
  forall w,
  exists done rest : list (Ability Env),
    todo = (done ++ rest)%list
    /\ journal (snd (Spec.initialiseInTurn actor todo w))
       = (journal w ++ map (@Initialise Env) done)%list
    /\ match fst (Spec.initialiseInTurn actor todo w) with
       | Fulfilled _ => rest = []
       | Rejected e =>
           exists cause blamed,
             In blamed todo
             /\ e = Spec.couldNotInitialise actor cause blamed
       end.
Proof.
  induction todo as [| a todo IH]; intros w; cbn [Spec.initialiseInTurn].
  - exists [], []. cbn. now rewrite app_nil_r.
  - destruct (invoke (Initialise a) (initialise a) "ability.initialise" w)
      as [[[] | e] w1] eqn:Hcall.
    + assert (Hw1 : journal w1 = (journal w ++ [Initialise a])%list).
      { unfold invoke in Hcall. destruct (initialise a) as [f |];
          [| discriminate].
        unfold call in Hcall. destruct (f (env w)) as [r s].
        now injection Hcall as _ <-. }
      destruct (IH w1) as (done & rest & Hsplit & Hjournal & Hend).
      exists (a :: done), rest.
      split; [cbn; now rewrite Hsplit |].
      split; [rewrite Hjournal, Hw1; cbn [map]; now rewrite <- app_assoc |].
      destruct (fst (Spec.initialiseInTurn actor todo w1)) as [[] | e];
        [exact Hend |].
      destruct Hend as (cause & blamed & Hin & He).
      exists cause, blamed. split; [now right | exact He].
    + cbn [fst snd].
      destruct (exists_last (l := a :: todo)) as (front & blamed & Hlast);
        [discriminate |].
      assert (Hblamed : In blamed (a :: todo)).
      { rewrite Hlast. apply in_or_app. right. now left. }
      unfold invoke in Hcall.
      destruct (initialise a) as [f |].
      * unfold call in Hcall. destruct (f (env w)) as [r s].
        injection Hcall as _ <-. cbn [journal].
        exists [a], todo.
        split; [reflexivity |].
        split; [reflexivity |].
        exists (fold_left (Spec.couldNotInitialise actor) front e), blamed.
        split; [exact Hblamed |].
        now rewrite Hlast, fold_left_app.
      * unfold throw in Hcall. injection Hcall as _ <-.
        exists [], (a :: todo).
        split; [reflexivity |].
        split; [cbn; now rewrite app_nil_r |].
        exists (fold_left (Spec.couldNotInitialise actor) front e), blamed.
        split; [exact Hblamed |].
        now rewrite Hlast, fold_left_app.
Qed.

Lemma flat_map_Initialise (abilities : list (Ability Env)) :
  Journal.performedIn (map (@Initialise Env) abilities) = []
  /\ Journal.announcedIn (map (@Initialise Env) abilities) = []
  /\ Journal.mintedIn (map (@Initialise Env) abilities) = []
  /\ Journal.initialisedIn (map (@Initialise Env) abilities) = abilities.
Proof.
  unfold Journal.performedIn, Journal.announcedIn, Journal.mintedIn,
    Journal.initialisedIn.
  induction abilities as [| a abilities (IH1 & IH2 & IH3 & IH4)];
    cbn [map flat_map app]; [repeat split |].
  repeat split; try assumption. now rewrite IH4.
Qed.

End JournalFacts.

Section AttemptsToFacts.
Variable Env : Type.
Context {stage : Stage Env}.

(** The abilities [attemptsTo] sets out to initialise. *)
Lemma toInitialise_In (actor : Actor Env) (s : Env) (ability : Ability Env) :
  In ability
     (filter (Actor.notInitialised s)
        (Actor.findAbilitiesOfType actor [initialise_; isInitialised_])) ->
  In ability (values (abilities actor))
  /\ exists check run,
       isInitialised ability = Some check
       /\ check s = false
       /\ initialise ability = Some run.
Proof.
  intros Hin.
  apply filter_In in Hin as [Hfound Hnot].
  unfold Actor.findAbilitiesOfType in Hfound.
  apply filter_In in Hfound as [Hheld Hboth].
  split; [exact Hheld |].
  cbn in Hboth. unfold Actor.notInitialised in Hnot.
  destruct (isInitialised ability) as [check |]; [| discriminate].
  destruct (initialise ability) as [run |]; [| discriminate].
  exists check, run. repeat split.
  now destruct (check s).
Qed.

(** The whole journal of one [attemptsTo]: first the initialisations, then
    what the activity loop adds. *)
Lemma attemptsTo_journal (actor : Actor Env) (activities : list (Activity Env))
    (w : World Env) :
  exists (idone irest : list (Ability Env))
         (done rest : list (Activity Env)) (added : list (Call Env)),
    filter (Actor.notInitialised (env w))
      (Actor.findAbilitiesOfType actor [initialise_; isInitialised_])
    = (idone ++ irest)%list
    /\ activities = (done ++ rest)%list
    /\ journal (snd (Actor.attemptsTo actor activities w))
       = (journal w ++ map (@Initialise Env) idone ++ added)%list
    /\ Journal.performedIn added = done
    /\ Journal.mintedIn added = map (fun a => Spec.detailsOf a actor) done
    /\ Journal.paired (Journal.announcedIn added) = true
    /\ Journal.initialisedIn added = []
    /\ (irest <> [] -> added = [])
    /\ (fst (Actor.attemptsTo actor activities w) = Fulfilled tt ->
        irest = [] /\ rest = []).
Proof.
  rewrite attemptsTo_is_loop. unfold then_.
  rewrite initialiseAbilities_is_loop.
  destruct (initialiseInTurn_journal actor
              (filter (Actor.notInitialised (env w))
                 (Actor.findAbilitiesOfType actor [initialise_; isInitialised_]))
              w) as (idone & irest & Hisplit & Hijournal & Hiend).
  destruct (Spec.initialiseInTurn actor _ w) as [[[] | e] w0].
  - cbn [fst snd] in *. subst irest.
    destruct (oneAfterAnother_journal actor activities w0)
      as (done & rest & added & Hsplit & Hjournal & Hdone & Hminted
          & Hpaired & Hinit & Hall).
    exists idone, [], done, rest, added.
    split; [exact Hisplit |].
    split; [exact Hsplit |].
    split; [rewrite Hjournal, Hijournal; now rewrite <- app_assoc |].
    repeat (split; [assumption |]).
    split; [intros H; now contradiction H |].
    intros H. split; [reflexivity | now apply Hall].
  - cbn [fst snd] in *.
    exists idone, irest, [], activities, [].
    split; [exact Hisplit |].
    split; [reflexivity |].
    split; [now rewrite app_nil_r |].
    split; [reflexivity |].
    split; [reflexivity |].
    split; [reflexivity |].
    split; [reflexivity |].
    split; [reflexivity | discriminate].
Qed.

End AttemptsToFacts.

(** X6. Whatever happens, the activities [attemptsTo] has performed are a
    prefix of the activities it was given, in the given order, each
    performed once; it has minted exactly one activity id for each of
    them, from fresh [ActivityDetails] every time; and when the chain
    fulfils it has performed them all. *)
Theorem attemptsTo_performs_a_prefix_in_order
    (Env : Type) (stage : Stage Env) (actor : Actor Env)
    (activities : list (Activity Env)) (w : World Env) :
  exists done rest : list (Activity Env),
    activities = (done ++ rest)%list
    /\ Journal.performedIn (journal (snd (Actor.attemptsTo actor activities w)))
       = (Journal.performedIn (journal w) ++ done)%list
    /\ Journal.mintedIn (journal (snd (Actor.attemptsTo actor activities w)))
       = (Journal.mintedIn (journal w)
          ++ map (fun a => Spec.detailsOf a actor) done)%list
    /\ (fst (Actor.attemptsTo actor activities w) = Fulfilled tt -> rest = []).
Proof.
  destruct (attemptsTo_journal actor activities w)
    as (idone & irest & done & rest & added & _ & Hsplit & Hjournal & Hdone
        & Hminted & _ & _ & _ & Hall).
  destruct (flat_map_Initialise idone) as (Hp & _ & Hm & _).
  exists done, rest.
  split; [exact Hsplit |].
  rewrite Hjournal.
  unfold Journal.performedIn, Journal.mintedIn in *.
  rewrite !flat_map_app, Hp, Hm, Hdone, Hminted.
  repeat split. intros H. now apply Hall.
Qed.

(** X7. The events [attemptsTo] announces come in pairs: every Starts is
    followed at once by the Finished of the same kind, scene id, activity
    id and details, so no activity is ever left started. *)
Theorem attemptsTo_announces_in_pairs
    (Env : Type) (stage : Stage Env) (actor : Actor Env)
    (activities : list (Activity Env)) (w : World Env) :
  exists events,
    Journal.announcedIn (journal (snd (Actor.attemptsTo actor activities w)))
    = (Journal.announcedIn (journal w) ++ events)%list
    /\ Journal.paired events = true.
Proof.
  destruct (attemptsTo_journal actor activities w)
    as (idone & irest & done & rest & added & _ & _ & Hjournal & _
        & _ & Hpaired & _).
  destruct (flat_map_Initialise idone) as (_ & Ha & _ & _).
  exists (Journal.announcedIn added).
  split; [| exact Hpaired].
  rewrite Hjournal.
  unfold Journal.announcedIn in *.
  now rewrite !flat_map_app, Ha.
Qed.

(** X8. [attemptsTo] calls [initialise] before anything else and never
    again afterwards, in the map's order, and only on held abilities that
    have both [initialise] and [isInitialised] as functions and answered
    [false] to [isInitialised()] when [attemptsTo] was called; when the
    chain fulfils every such ability has been initialised. *)
Theorem attemptsTo_initialises_only_what_needs_it
    (Env : Type) (stage : Stage Env) (actor : Actor Env)
    (activities : list (Activity Env)) (w : World Env) :
  exists (initialised skipped : list (Ability Env)) (after : list (Call Env)),
    journal (snd (Actor.attemptsTo actor activities w))
    = (journal w ++ map (@Initialise Env) initialised ++ after)%list
    /\ Journal.initialisedIn after = []
    /\ filter (Actor.notInitialised (env w))
         (filter (fun a => isFunction (initialise a) && isFunction (isInitialised a))
            (values (abilities actor)))
       = (initialised ++ skipped)%list
    /\ (forall ability, In ability initialised ->
          In ability (values (abilities actor))
          /\ exists check run,
               isInitialised ability = Some check
               /\ check (env w) = false
               /\ initialise ability = Some run)
    /\ (fst (Actor.attemptsTo actor activities w) = Fulfilled tt -> skipped = []).
Proof.
  destruct (attemptsTo_journal actor activities w)
    as (idone & irest & done & rest & added & Hisplit & _ & Hjournal & _
        & _ & _ & Hinit & _ & Hall).
  exists idone, irest, added.
  split; [exact Hjournal |].
  split; [exact Hinit |].
  split.
  { rewrite <- Hisplit. unfold Actor.findAbilitiesOfType.
    f_equal. apply filter_ext. intros a. cbn. now rewrite andb_true_r. }
  split.
  { intros ability Hin. apply (toInitialise_In actor (env w)).
    rewrite Hisplit. apply in_or_app. now left. }
  intros H. now apply Hall.
Qed.

(** X9. When the initialisation of the abilities fails, [attemptsTo]
    rejects with that failure whatever the activities are: no cue is
    awaited and nothing is performed.  The error is a
    [TestCompromisedError] whose message names the actor and an ability
    the actor holds, and the outcome matcher classifies it as
    [ExecutionCompromised]. *)
Theorem initialisation_failure_compromises_the_chain
    (Env : Type) (stage : Stage Env) (actor : Actor Env)
    (activities : list (Activity Env)) (w w' : World Env) (e : Value) :
  Actor.initialiseAbilities actor w = (Rejected e, w') ->
  Actor.attemptsTo actor activities w = (Rejected e, w')
  /\ (exists cause blamed,
        In blamed (values (abilities actor))
        /\ e = Errors.new Errors.TestCompromisedError
                 (name actor ++ " couldn't initialise the ability to "
                  ++ interpolate (nameOf (abilityConstructor blamed)))
                 (Some cause))
  /\ OutcomeMatcher.outcomeFor e = ExecutionCompromised e.
Proof.
  intros Hinit.
  split.
  { rewrite attemptsTo_is_loop. unfold then_. now rewrite Hinit. }
  rewrite initialiseAbilities_is_loop in Hinit.
  destruct (initialiseInTurn_journal actor
              (filter (Actor.notInitialised (env w))
                 (Actor.findAbilitiesOfType actor [initialise_; isInitialised_]))
              w) as (idone & irest & _ & _ & Hend).
  rewrite Hinit in Hend. cbn [fst] in Hend.
  destruct Hend as (cause & blamed & Hin & ->).
  split; [| reflexivity].
  exists cause, blamed.
  split; [| reflexivity].
  now apply (toInitialise_In actor (env w)).
Qed.

(** X10. When the wrapped activity fulfils, the tracker fulfils too, and
    the last thing it does is announce the Finished event of the
    activity's kind with [ExecutionSuccessful]. *)
Theorem tracked_success_is_announced
    (Env : Type) (stage : Stage Env)
    (activity : Activity Env) (actor : Actor Env) (w : World Env)
    (sceneId activityId : CorrelationId) (s1 s3 : Env) :
  let details := Spec.detailsOf activity actor in
  let starts := Spec.startsOf activity sceneId activityId details (currentTime s1) in
  let finished :=
    Spec.finishedOf activity sceneId activityId details ExecutionSuccessful
      (currentTime s3) in
  currentSceneId (env w) = Fulfilled sceneId ->
  assignNewActivityId details (env w) = (activityId, s1) ->
  Screenplay.performAs activity actor (announce starts s1) = (Fulfilled tt, s3) ->
  TrackedActivity.performAs (TrackedActivity.new activity) actor w =
    (Fulfilled tt,
     MkWorld (announce finished s3)
       (journal w ++ [AssignNewActivityId details; Announce starts;
                      PerformAs activity; Announce finished])%list).
Proof.
  intros details starts finished Hscene Hmint Hrun.
  exact (tracked_run activity actor w Hscene Hmint Hrun).
Qed.

(** X11. When the stage has no scene id to give, the tracker rejects with
    the stage's error and leaves the world as it found it: no activity id
    is minted, nothing is announced, the activity is not performed.  In
    [attemptsTo] the cue has been awaited by then, and nothing else is
    done. *)
Theorem nothing_is_tracked_outside_a_scene
    (Env : Type) (stage : Stage Env)
    (activity : Activity Env) (others : list (Activity Env))
    (actor : Actor Env) (w w0 w1 : World Env) (e : Value) :
  Actor.initialiseAbilities actor w = (Fulfilled tt, w0) ->
  call WaitForNextCue waitForNextCue w0 = (Fulfilled tt, w1) ->
  currentSceneId (env w1) = Rejected e ->
  TrackedActivity.performAs (TrackedActivity.new activity) actor w1
  = (Rejected e, w1)
  /\ Actor.attemptsTo actor (activity :: others) w = (Rejected e, w1).
Proof.
  intros Hinit Hcue Hscene.
  assert (Hstop :
    TrackedActivity.performAs (TrackedActivity.new activity) actor w1
    = (Rejected e, w1)).
  { unfold TrackedActivity.performAs, then_. now rewrite Hscene. }
  split; [exact Hstop |].
  rewrite attemptsTo_is_loop. unfold then_. rewrite Hinit.
  unfold Spec.oneAfterAnother. rewrite inSequence_cons.
  unfold then_. now rewrite Hcue, Hstop.
Qed.

(* ================================================================= *)
(** * More about [answer] *)

(** X12. [answer] never hands back a Question it has not asked: what it
    returns as it is has an own [then], and what it passes to
    [Promise.resolve] is [undefined], [null], or a value that is neither
    a promise nor a Question.  The only calls it makes are [answeredBy]
    calls, each on a Question without an own [then]. *)
Theorem answer_asks_until_there_is_no_question
    (Env : Type) (actor : Actor Env) (answerable : Answerable Env)
    (w : World Env) :
  (match fst (Actor.answer actor answerable w) with
   | Actor.AsIs x => Actor.isDefined x && Actor.isAPromise x = true
   | Actor.PromiseResolve x =>
       Actor.isDefined x && Actor.isAPromise x = false
       /\ Actor.isDefined x && Actor.isAQuestion x = false
   end)
  /\ exists asked,
       journal (snd (Actor.answer actor answerable w))
       = (journal w ++ map (@AnsweredBy Env) asked)%list
       /\ Forall (fun q => Actor.isAPromise q = false
                           /\ Actor.isAQuestion q = true) asked.
Proof.
  revert answerable w.
  fix IH 1.
  intros [isNull | hasOwnThen [f |] payload] w.
  - cbn. split; [split; reflexivity |].
    exists []. cbn. now rewrite app_nil_r.
  - destruct hasOwnThen.
    + cbn. split; [reflexivity |].
      exists []. cbn. now rewrite app_nil_r.
    + cbn.
      destruct (f actor (env w)) as [next s].
      destruct (IH next
                  (MkWorld s (journal w ++ [AnsweredBy (Thing false (Some f) payload)])%list))
        as [Hshape (asked & Hjournal & Hasked)].
      split; [exact Hshape |].
      exists (Thing false (Some f) payload :: asked).
      split.
      * rewrite Hjournal. cbn [journal map]. now rewrite <- app_assoc.
      * constructor; [split; reflexivity | exact Hasked].
  - destruct hasOwnThen; cbn.
    + split; [reflexivity |]. exists []. cbn. now rewrite app_nil_r.
    + split; [split; reflexivity |]. exists []. cbn. now rewrite app_nil_r.
Qed.

(* ================================================================= *)
(** * More about [ActivityDescriber.describe] *)

Lemma splitAtFirst_none (pat s : string) :
  includes pat s = false -> splitAtFirst pat s = None.
Proof.
  induction s as [| c s IH]; cbn [includes splitAtFirst].
  - now destruct (startsWith pat "").
  - destruct (startsWith pat (String c s)); [discriminate |].
    intros H. now rewrite IH.
Qed.

Lemma splitAtFirst_some (pat s : string) :
  includes pat s = true -> exists before after, splitAtFirst pat s = Some (before, after).
Proof.
  induction s as [| c s IH]; cbn [includes splitAtFirst].
  - destruct (startsWith pat ""); [eauto | discriminate].
  - destruct (startsWith pat (String c s)); [eauto |].
    intros H. destruct (IH H) as (before & after & ->). eauto.
Qed.

(** The split [splitAtFirst] finds is the leftmost one. *)
Lemma splitAtFirst_leftmost (pat s before after : string) :
  splitAtFirst pat s = Some (before, after) ->
  forall before' after',
    s = before' ++ pat ++ after' ->
    String.length before <= String.length before'.
Proof.
  revert before.
  induction s as [| c s IH]; intros before; cbn [splitAtFirst].
  - destruct (startsWith pat ""); [| discriminate].
    intros [= <- <-] before' after' _. cbn. lia.
  - destruct (startsWith pat (String c s)) eqn:E.
    + intros [= <- <-] before' after' _. cbn. lia.
    + destruct (splitAtFirst pat s) as [[b a] |] eqn:Hs; [| discriminate].
      intros [= <- <-] before' after' Hsplit.
      destruct before' as [| c' before''].
      * cbn in Hsplit. rewrite Hsplit, startsWith_append in E. discriminate.
      * cbn in Hsplit. injection Hsplit as _ Hsplit.
        specialize (IH b eq_refl before'' after' Hsplit). cbn. lia.
Qed.

(** X13. For an actor whose name has no dollar sign, an activity whose
    [toString()] is the default of a plain object is described as
    "<name> performs <constructor name>". *)
Theorem describe_default_description
    (Env : Type) (activity : Activity Env) (actor : Actor Env) :
  toString activity = "[object Object]" ->
  includes "$" (name actor) = false ->
  ActivityDescriber.describe activity actor
  = MkName (name actor ++ " performs "
            ++ interpolate (nameOf (activityConstructor activity))).
Proof.
  intros Hdefault Hplain.
  unfold ActivityDescriber.describe, ActivityDescriber.includeActorName, replace.
  rewrite Hdefault. cbn [String.eqb Ascii.eqb Bool.eqb append splitAtFirst
                         startsWith andb String.length drop].
  cbn.
  now rewrite getSubstitution_plain.
Qed.

(** X14. For an actor whose name has no dollar sign, an activity with a
    description of its own that mentions [#actor] is described by that
    text with the leftmost [#actor] replaced by the actor's name; what
    comes after it, later placeholders included, is kept as it is. *)
Theorem describe_replaces_the_leftmost_placeholder
    (Env : Type) (activity : Activity Env) (actor : Actor Env) :
  toString activity <> "[object Object]" ->
  includes "#actor" (toString activity) = true ->
  includes "$" (name actor) = false ->
  exists before after,
    toString activity = before ++ "#actor" ++ after
    /\ (forall before' after',
           toString activity = before' ++ "#actor" ++ after' ->
           String.length before <= String.length before')
    /\ ActivityDescriber.describe activity actor
       = MkName (before ++ name actor ++ after).
Proof.
  intros Hown Hmentions Hplain.
  destruct (splitAtFirst_some _ _ Hmentions) as (before & after & Hsplit).
  exists before, after.
  split; [now apply splitAtFirst_split |].
  split; [now apply splitAtFirst_leftmost with (after := after) |].
  unfold ActivityDescriber.describe, ActivityDescriber.includeActorName, replace.
  apply String.eqb_neq in Hown. rewrite Hown, Hsplit.
  now rewrite getSubstitution_plain.
Qed.

(** X15. An activity with a description of its own that does not mention
    [#actor] is described by that text unchanged, whoever the actor
    is. *)
Theorem describe_without_placeholder
    (Env : Type) (activity : Activity Env) (actor : Actor Env) :
  toString activity <> "[object Object]" ->
  includes "#actor" (toString activity) = false ->
  ActivityDescriber.describe activity actor = MkName (toString activity).
Proof.
  intros Hown Hnone.
  unfold ActivityDescriber.describe, ActivityDescriber.includeActorName, replace.
  apply String.eqb_neq in Hown. rewrite Hown.
  now rewrite splitAtFirst_none.
Qed.

(* ================================================================= *)
(** * [Actor.toString] and [Actor.collect] *)


(** X17. For [collect] an empty string is no name at all: the artifact is
    then named after its constructor, as when the name is left out; any
    other string names it as the [Name] made of it would; and when the
    stage cannot give the scene id, [collect] throws the stage's error and
    announces nothing. *)
Theorem collect_name_argument
    (Env : Type) (stage : Stage Env) (artifacts : ActorReporting.ArtifactStage Env)
    (actor : Actor Env) (artifact : ActorReporting.Artifact) (s : Env) :
  ActorReporting.collect actor artifact (ActorReporting.AsString "") s
  = ActorReporting.collect actor artifact ActorReporting.Omitted s
  /\ ActorReporting.collect actor artifact ActorReporting.Omitted s
     = ActorReporting.collect actor artifact
         (ActorReporting.AsName
            (MkName (ActorReporting.artifactConstructorName artifact))) s
  /\ (forall text,
         text <> "" ->
         ActorReporting.collect actor artifact (ActorReporting.AsString text) s
         = ActorReporting.collect actor artifact
             (ActorReporting.AsName (MkName text)) s)
  /\ (forall name error,
         currentSceneId s = Rejected error ->
         ActorReporting.collect actor artifact name s = (Threw error, s)).
Proof.
  unfold ActorReporting.collect.
  split; [reflexivity |].
  split; [reflexivity |].
  split.
  - intros text Htext. apply String.eqb_neq in Htext.
    unfold ActorReporting.orElse. now rewrite Htext.
  - intros name error Hscene. now rewrite Hscene.
Qed.

(* ================================================================= *)
(** * How the operations compose *)

(** X18. The [ConfigurationError] that [abilityTo] throws for a missing
    ability is, for the outcome matcher, a plain error: an activity that
    fails for want of an ability is reported as
    [ExecutionFailedWithError], not as a compromised test nor as a failed
    assertion. *)
Theorem missing_ability_is_reported_as_an_error
    (Env : Type) (actor : Actor Env) (abilityType : Proto) :
  Actor.findAbilityTo actor abilityType = None ->
  exists error,
    Actor.abilityTo actor abilityType = Threw error
    /\ OutcomeMatcher.outcomeFor error = ExecutionFailedWithError error.
Proof.
  intros Hmissing. unfold Actor.abilityTo. rewrite Hmissing.
  destruct (0 <? size (abilities actor))%nat; eexists; split; reflexivity.
Qed.

(** X19. [whoCan(a, b)] is [whoCan(a).whoCan(b)]: granting a list of
    abilities in one call leaves the actor as granting its two halves in
    two calls does, the second call being made only if the first did not
    throw. *)
Theorem whoCan_chains
    (Env : Type) (actor : Actor Env) (first second : list (Ability Env)) :
  Actor.whoCan actor (first ++ second)
  = match snd (Actor.whoCan actor first) with
    | None => Actor.whoCan (fst (Actor.whoCan actor first)) second
    | Some error => Actor.whoCan actor first
    end.
Proof.
  revert actor.
  induction first as [| g first IH]; intros actor; cbn [app Actor.whoCan];
    [reflexivity |].
  destruct (Actor.acquireAbility actor g) as [actor' | error];
    [apply IH | reflexivity].
Qed.

(** X20. Two [attemptsTo] calls in a row do what one call with both lists
    does, provided the first call fulfils and leaves no held ability in
    need of initialisation. *)
Theorem attemptsTo_twice_is_attemptsTo_once
    (Env : Type) (stage : Stage Env) (actor : Actor Env)
    (first second : list (Activity Env)) (w w1 : World Env) :
  Actor.attemptsTo actor first w = (Fulfilled tt, w1) ->
  filter (Actor.notInitialised (env w1))
    (Actor.findAbilitiesOfType actor [initialise_; isInitialised_]) = [] ->
  Actor.attemptsTo actor (first ++ second) w = Actor.attemptsTo actor second w1.
Proof.
  intros Hfirst Hready.
  rewrite (attemptsTo_is_loop actor second w1).
  unfold then_ at 1.
  rewrite initialiseAbilities_is_loop, Hready. cbn [Spec.initialiseInTurn resolve].
  rewrite attemptsTo_is_loop in Hfirst |- *.
  unfold then_ in Hfirst |- *.
  destruct (Actor.initialiseAbilities actor w) as [[[] | e] w0];
    [| discriminate].
  unfold Spec.oneAfterAnother in *.
  rewrite inSequence_app.
  now erewrite then_fulfilled by exact Hfirst.
Qed.

(* ================================================================= *)
(** * The theorems at work on the sample cast *)

Import Backstage.

(** Wendy clicks on a button that is not there. *)
Lemma tracked_failure_witness :
  currentSceneId (env curtain) = Fulfilled (MkCorrelationId 7)
  /\ assignNewActivityId (Spec.detailsOf click Wendy) (env curtain)
     = (MkCorrelationId 0, MkEnv (Some (MkCorrelationId 7)) 1 0 [] [])
  /\ Screenplay.performAs click Wendy
       (announce
          (Spec.startsOf click (MkCorrelationId 7) (MkCorrelationId 0)
             (Spec.detailsOf click Wendy) (MkTimestamp 0))
          (MkEnv (Some (MkCorrelationId 7)) 1 0 [] []))
     = (Rejected boom,
        MkEnv (Some (MkCorrelationId 7)) 1 1
          [InteractionStarts (MkCorrelationId 7) (MkCorrelationId 0)
             (Spec.detailsOf click Wendy) (MkTimestamp 0)]
          ["button missing"])
  /\ fst (TrackedActivity.performAs (TrackedActivity.new click) Wendy curtain) = Rejected boom
  /\ journal (snd (TrackedActivity.performAs (TrackedActivity.new click) Wendy curtain))
     = [AssignNewActivityId (Spec.detailsOf click Wendy);
        Announce (InteractionStarts (MkCorrelationId 7) (MkCorrelationId 0)
                    (Spec.detailsOf click Wendy) (MkTimestamp 0));
        PerformAs click;
        Announce (InteractionFinished (MkCorrelationId 7) (MkCorrelationId 0)
                    (Spec.detailsOf click Wendy)
                    (ExecutionFailedWithError boom) (MkTimestamp 1))].
Proof.
  split; [reflexivity |].
  split; [reflexivity |].
  split; [reflexivity |].
  rewrite (@tracked_failure_is_announced_then_rethrown
             Env stage click Wendy curtain
             (MkCorrelationId 7) (MkCorrelationId 0)
             (MkEnv (Some (MkCorrelationId 7)) 1 0 [] [])
             (MkEnv (Some (MkCorrelationId 7)) 1 1
                [InteractionStarts (MkCorrelationId 7) (MkCorrelationId 0)
                   (Spec.detailsOf click Wendy) (MkTimestamp 0)]
                ["button missing"])
             boom); [| reflexivity | reflexivity | reflexivity].
  split; reflexivity.
Defined.

(** The stage moves on to scene 8 while the activity runs; both events
    still carry scene 7 and the id minted at the start. *)
Lemma tracked_events_correlate_witness :
  currentSceneId (env curtain) = Fulfilled (MkCorrelationId 7)
  /\ (exists startedAt finishedAt : Timestamp,
       journal (snd (TrackedActivity.performAs (TrackedActivity.new changeScene) Wendy curtain))
       = [AssignNewActivityId (Spec.detailsOf changeScene Wendy);
          Announce (TaskStarts (MkCorrelationId 7) (MkCorrelationId 0)
                      (Spec.detailsOf changeScene Wendy) startedAt);
          PerformAs changeScene;
          Announce (TaskFinished (MkCorrelationId 7) (MkCorrelationId 0)
                      (Spec.detailsOf changeScene Wendy)
                      ExecutionSuccessful finishedAt)])
  /\ currentSceneId
       (env (snd (TrackedActivity.performAs (TrackedActivity.new changeScene) Wendy curtain)))
     = Fulfilled (MkCorrelationId 8).
Proof.
  split; [reflexivity |].
  split; [| reflexivity].
  exact (@tracked_events_correlate Env stage changeScene Wendy curtain
           (MkCorrelationId 7) eq_refl).
Defined.

(** The scenario of section 8: [ok, failing, ok2]. *)
Lemma attemptsTo_fail_fast_witness :
  Actor.attemptsTo Wendy [logIn] curtain
  = (Fulfilled tt, snd (Actor.attemptsTo Wendy [logIn] curtain))
  /\ call WaitForNextCue waitForNextCue
       (snd (Actor.attemptsTo Wendy [logIn] curtain))
     = (Fulfilled tt, snd (call WaitForNextCue waitForNextCue
                             (snd (Actor.attemptsTo Wendy [logIn] curtain))))
  /\ TrackedActivity.performAs (TrackedActivity.new click) Wendy
       (snd (call WaitForNextCue waitForNextCue
               (snd (Actor.attemptsTo Wendy [logIn] curtain))))
     = (Rejected boom,
        snd (Actor.attemptsTo Wendy [logIn; click] curtain))
  /\ Actor.attemptsTo Wendy [logIn; click; logOut] curtain
     = (Rejected boom, snd (Actor.attemptsTo Wendy [logIn; click] curtain))
  /\ notes (env (snd (Actor.attemptsTo Wendy [logIn; click; logOut] curtain)))
     = ["logged in"; "button missing"].
Proof.
  split; [reflexivity |].
  split; [reflexivity |].
  split; [reflexivity |].
  split; [| reflexivity].
  apply (@attemptsTo_sequential_and_fail_fast
           Env stage Wendy [logIn] [logOut] click curtain
           (snd (Actor.attemptsTo Wendy [logIn] curtain))
           (snd (call WaitForNextCue waitForNextCue
                   (snd (Actor.attemptsTo Wendy [logIn] curtain))))
           (snd (Actor.attemptsTo Wendy [logIn; click] curtain))
           boom); reflexivity.
Defined.

(** Protractor's browser ability answers for BrowseTheWeb, and replaces
    the plain one granted before it. *)
Lemma abilities_witness :
  In BrowseTheWeb (superclasses BrowseTheWebWithProtractor)
  /\ In Ability_ (superclasses BrowseTheWeb)
  /\ abilityConstructor browseWithProtractor = BrowseTheWebWithProtractor
  /\ Forall (fun g => In Ability_ (superclasses (abilityConstructor g)))
       [browseTheWeb; callAnApi; browseWithProtractor]
  /\ (let (actor', error) := Actor.whoCan Wendy [browseWithProtractor] in
      error = None /\ Actor.abilityTo actor' BrowseTheWeb = Returned browseWithProtractor)
  /\ get (abilities (fst (Actor.whoCan Wendy
                            [browseTheWeb; callAnApi; browseWithProtractor])))
       BrowseTheWeb
     = Some browseWithProtractor
  /\ keys (abilities (fst (Actor.whoCan Wendy
                             [browseTheWeb; callAnApi; browseWithProtractor])))
     = [BrowseTheWeb; CallAnApi].
Proof.
  assert (H1 : In BrowseTheWeb (superclasses BrowseTheWebWithProtractor))
    by (cbn; auto).
  assert (H2 : In Ability_ (superclasses BrowseTheWeb))
    by (cbn; auto).
  assert (H4 : Forall (fun g : Ability Env =>
                         In Ability_ (superclasses (abilityConstructor g)))
                 [browseTheWeb; callAnApi; browseWithProtractor]).
  { repeat (apply Forall_cons; [cbn; auto |]). apply Forall_nil. }
  split; [exact H1 |].
  split; [exact H2 |].
  split; [reflexivity |].
  split; [exact H4 |].
  split; [| split; reflexivity].
  exact (proj1 (@abilities_resolve_covariantly_one_per_family
                  Env Wendy BrowseTheWeb BrowseTheWebWithProtractor
                  browseWithProtractor "Wendy"
                  [browseTheWeb; callAnApi; browseWithProtractor]
                  H1 H2 eq_refl H4)).
Defined.

(** Wendy has drivers for the database and the API, and no browser. *)
Lemma abilityTo_missing_witness :
  Actor.findAbilityTo WendyWithDrivers (Class 0 "BrowseTheWeb" Ability_) = None
  /\ exists message,
       Actor.abilityTo WendyWithDrivers (Class 0 "BrowseTheWeb" Ability_)
       = Threw (Errors.new Errors.ConfigurationError message None)
       /\ (abilities WendyWithDrivers = [] ->
           message
           = name WendyWithDrivers ++ " can't " ++ "BrowseTheWeb"
             ++ " yet. Did you give them the ability to do so?")
       /\ (abilities WendyWithDrivers <> [] ->
           message
           = name WendyWithDrivers ++ " can "
             ++ join ", " (map nameOf (keys (abilities WendyWithDrivers)))
             ++ ". They can't, however, " ++ "BrowseTheWeb"
             ++ " yet. Did you give them the ability to do so?"
           /\ forall held, In held (keys (abilities WendyWithDrivers)) ->
                           includes (joinItem (nameOf held)) message = true).
Proof.
  split; [reflexivity |].
  exact (@abilityTo_missing_throws_ConfigurationError
           Env WendyWithDrivers 0 "BrowseTheWeb" Ability_ eq_refl).
Defined.

(** A question whose answer is forty-two. *)
Lemma answer_question_witness :
  Actor.isDefined theAnswer && Actor.isAPromise theAnswer = false
  /\ Actor.isDefined theAnswer && Actor.isAQuestion theAnswer = true
  /\ fst (Actor.answer Wendy theAnswer curtain) = Actor.PromiseResolve fortyTwo
  /\ In (AnsweredBy theAnswer) (journal (snd (Actor.answer Wendy theAnswer curtain)))
  /\ Actor.answer Wendy pending curtain = (Actor.AsIs pending, curtain).
Proof.
  destruct (answer_dispatches_in_order Wendy theAnswer curtain)
    as (_ & Hquestion & _).
  destruct (Hquestion eq_refl eq_refl) as (f & _ & _ & Hasked).
  split; [reflexivity |].
  split; [reflexivity |].
  split; [reflexivity |].
  split; [exact Hasked |].
  exact (proj1 (answer_dispatches_in_order Wendy pending curtain) eq_refl).
Defined.

(* ================================================================= *)
(** * The further theorems at work on the sample cast *)

Import Wings.

(** A plain object between two abilities. *)
Lemma whoCan_stranger_witness :
  Forall (fun g : Ability Env => constructedBy (abilityConstructor g) Ability_ = true)
    [browseTheWeb]
  /\ constructedBy (abilityConstructor notAnAbility) Ability_ = false
  /\ Actor.whoCan Wendy [browseTheWeb; notAnAbility; callAnApi]
     = (MkActor "Wendy" [(BrowseTheWeb, browseTheWeb)],
        Some (Errors.new Errors.ConfigurationError
                "Custom abilities must extend Ability from '@serenity-js/core'. Received object"
                None)).
Proof.
  assert (H1 : Forall (fun g : Ability Env =>
                         constructedBy (abilityConstructor g) Ability_ = true)
                 [browseTheWeb]).
  { apply Forall_cons; [reflexivity | apply Forall_nil]. }
  split; [exact H1 |].
  split; [reflexivity |].
  exact (proj1 (@whoCan_stops_at_the_first_stranger
                  Env Wendy [browseTheWeb] [callAnApi] notAnAbility H1 eq_refl)).
Defined.

(** Granting a browser does not disturb the API client. *)
Lemma whoCan_other_families_witness :
  constructedBy (abilityConstructor browseTheWeb) Ability_ = true
  /\ Actor.mostGenericTypeOf CallAnApi
     <> Actor.mostGenericTypeOf (abilityConstructor browseTheWeb)
  /\ Actor.abilityTo WendyWithDrivers CallAnApi = Returned callAnApi
  /\ Actor.abilityTo (fst (Actor.whoCan WendyWithDrivers [browseTheWeb])) CallAnApi
     = Returned callAnApi.
Proof.
  assert (H2 : Actor.mostGenericTypeOf CallAnApi
               <> Actor.mostGenericTypeOf (abilityConstructor browseTheWeb))
    by (cbn; discriminate).
  split; [reflexivity |].
  split; [exact H2 |].
  split; [reflexivity |].
  exact (@whoCan_keeps_other_families
           Env WendyWithDrivers browseTheWeb callAnApi CallAnApi
           eq_refl H2 eq_refl).
Defined.

(** What Wendy holds after a call that threw half way. *)
Lemma held_abilities_witness :
  In browseWithProtractor
     (values (abilities (fst (Actor.whoCan (MkActor "Wendy" [])
                                [browseWithProtractor; notAnAbility; callAnApi]))))
  /\ constructedBy (abilityConstructor browseWithProtractor) Ability_ = true
  /\ Actor.abilityTo
       (fst (Actor.whoCan (MkActor "Wendy" [])
               [browseWithProtractor; notAnAbility; callAnApi]))
       BrowseTheWebWithProtractor
     = Returned browseWithProtractor.
Proof.
  assert (H : In browseWithProtractor
                (values (abilities (fst (Actor.whoCan (MkActor "Wendy" [])
                   [browseWithProtractor; notAnAbility; callAnApi])))))
    by (left; reflexivity).
  split; [exact H |].
  exact (@held_abilities_resolve_by_their_own_type
           Env "Wendy" [browseWithProtractor; notAnAbility; callAnApi]
           browseWithProtractor H).
Defined.

(** [Ability] itself cannot be resolved. *)
Lemma abilityTo_Ability_witness :
  Forall (fun g : Ability Env => In Ability_ (superclasses (abilityConstructor g)))
    [browseTheWeb; callAnApi]
  /\ ~ In Ability_ (superclasses Ability_)
  /\ exists message,
       Actor.abilityTo (fst (Actor.whoCan (MkActor "Wendy" [])
                               [browseTheWeb; callAnApi])) Ability_
       = Threw (Errors.new Errors.ConfigurationError message None).
Proof.
  assert (H1 : Forall (fun g : Ability Env =>
                         In Ability_ (superclasses (abilityConstructor g)))
                 [browseTheWeb; callAnApi]).
  { repeat (apply Forall_cons; [cbn; auto |]). apply Forall_nil. }
  assert (H2 : ~ In Ability_ (superclasses Ability_)) by (intros []).
  split; [exact H1 |].
  split; [exact H2 |].
  exact (@abilityTo_outside_the_hierarchy_throws
           Env "Wendy" [browseTheWeb; callAnApi] Ability_ H1 H2).
Defined.

(** The database is down: nobody logs in. *)
Lemma initialisation_failure_witness :
  Actor.initialiseAbilities WendyWithDrivers curtain
  = (Rejected
       (Spec.couldNotInitialise WendyWithDrivers
          (Spec.couldNotInitialise WendyWithDrivers connectionRefused useDatabase)
          callAnApi),
     snd (Actor.initialiseAbilities WendyWithDrivers curtain))
  /\ Actor.attemptsTo WendyWithDrivers [logIn; logOut] curtain
     = (Rejected
          (Spec.couldNotInitialise WendyWithDrivers
             (Spec.couldNotInitialise WendyWithDrivers connectionRefused useDatabase)
             callAnApi),
        snd (Actor.initialiseAbilities WendyWithDrivers curtain))
  /\ notes (env (snd (Actor.attemptsTo WendyWithDrivers [logIn; logOut] curtain)))
     = ["database unreachable"].
Proof.
  split; [reflexivity |].
  split; [| reflexivity].
  exact (proj1 (@initialisation_failure_compromises_the_chain
                  Env stage WendyWithDrivers [logIn; logOut] curtain
                  (snd (Actor.initialiseAbilities WendyWithDrivers curtain))
                  (Spec.couldNotInitialise WendyWithDrivers
                     (Spec.couldNotInitialise WendyWithDrivers
                        connectionRefused useDatabase)
                     callAnApi)
                  eq_refl)).
Defined.

(** Wendy logs in. *)
Lemma tracked_success_witness :
  currentSceneId (env curtain) = Fulfilled (MkCorrelationId 7)
  /\ assignNewActivityId (Spec.detailsOf logIn Wendy) (env curtain)
     = (MkCorrelationId 0, MkEnv (Some (MkCorrelationId 7)) 1 0 [] [])
  /\ Screenplay.performAs logIn Wendy
       (announce
          (Spec.startsOf logIn (MkCorrelationId 7) (MkCorrelationId 0)
             (Spec.detailsOf logIn Wendy) (MkTimestamp 0))
          (MkEnv (Some (MkCorrelationId 7)) 1 0 [] []))
     = (Fulfilled tt,
        MkEnv (Some (MkCorrelationId 7)) 1 1
          [TaskStarts (MkCorrelationId 7) (MkCorrelationId 0)
             (Spec.detailsOf logIn Wendy) (MkTimestamp 0)]
          ["logged in"])
  /\ fst (TrackedActivity.performAs (TrackedActivity.new logIn) Wendy curtain)
     = Fulfilled tt
  /\ announced (env (snd (TrackedActivity.performAs (TrackedActivity.new logIn)
                            Wendy curtain)))
     = [TaskStarts (MkCorrelationId 7) (MkCorrelationId 0)
          (Spec.detailsOf logIn Wendy) (MkTimestamp 0);
        TaskFinished (MkCorrelationId 7) (MkCorrelationId 0)
          (Spec.detailsOf logIn Wendy) ExecutionSuccessful (MkTimestamp 1)].
Proof.
  split; [reflexivity |].
  split; [reflexivity |].
  split; [reflexivity |].
  rewrite (@tracked_success_is_announced
             Env stage logIn Wendy curtain
             (MkCorrelationId 7) (MkCorrelationId 0)
             (MkEnv (Some (MkCorrelationId 7)) 1 0 [] [])
             (MkEnv (Some (MkCorrelationId 7)) 1 1
                [TaskStarts (MkCorrelationId 7) (MkCorrelationId 0)
                   (Spec.detailsOf logIn Wendy) (MkTimestamp 0)]
                ["logged in"])); [| reflexivity | reflexivity | reflexivity].
  split; reflexivity.
Defined.

(** Between two scenes nothing is tracked. *)
Lemma outside_a_scene_witness :
  Actor.initialiseAbilities Wendy (MkWorld interval [])
  = (Fulfilled tt, MkWorld interval [])
  /\ call WaitForNextCue waitForNextCue (MkWorld interval [])
     = (Fulfilled tt, MkWorld interval [WaitForNextCue])
  /\ currentSceneId (env (MkWorld interval [WaitForNextCue]))
     = Rejected (Errors.new LogicError "No scene is active" None)
  /\ Actor.attemptsTo Wendy [logIn; logOut] (MkWorld interval [])
     = (Rejected (Errors.new LogicError "No scene is active" None),
        MkWorld interval [WaitForNextCue]).
Proof.
  split; [reflexivity |].
  split; [reflexivity |].
  split; [reflexivity |].
  exact (proj2 (@nothing_is_tracked_outside_a_scene
                  Env stage logIn [logOut] Wendy
                  (MkWorld interval []) (MkWorld interval [])
                  (MkWorld interval [WaitForNextCue])
                  (Errors.new LogicError "No scene is active" None)
                  eq_refl eq_refl eq_refl)).
Defined.

(** An activity that keeps the default [toString]. *)
Lemma describe_default_witness :
  toString changeScene = "[object Object]"
  /\ includes "$" (name Wendy) = false
  /\ ActivityDescriber.describe changeScene Wendy = MkName "Wendy performs LogIn".
Proof.
  split; [reflexivity |].
  split; [reflexivity |].
  exact (@describe_default_description Env changeScene Wendy eq_refl eq_refl).
Defined.

(** Two placeholders: the first gives way, the second stays. *)
Lemma describe_leftmost_witness :
  toString describesItself <> "[object Object]"
  /\ includes "#actor" (toString describesItself) = true
  /\ includes "$" (name Wendy) = false
  /\ ActivityDescriber.describe describesItself Wendy
     = MkName "Wendy greets #actor's friend"
  /\ exists before after,
       toString describesItself = before ++ "#actor" ++ after
       /\ (forall before' after',
              toString describesItself = before' ++ "#actor" ++ after' ->
              String.length before <= String.length before')
       /\ ActivityDescriber.describe describesItself Wendy
          = MkName (before ++ name Wendy ++ after).
Proof.
  assert (H1 : toString describesItself <> "[object Object]") by discriminate.
  split; [exact H1 |].
  split; [reflexivity |].
  split; [reflexivity |].
  split; [reflexivity |].
  exact (@describe_replaces_the_leftmost_placeholder
           Env describesItself Wendy H1 eq_refl eq_refl).
Defined.

(** No placeholder: the text is kept, dollar signs in the name or not. *)
Lemma describe_without_placeholder_witness :
  toString noPlaceholder <> "[object Object]"
  /\ includes "#actor" (toString noPlaceholder) = false
  /\ ActivityDescriber.describe noPlaceholder (MkActor "Ca$$h" [])
     = MkName "the lights go out".
Proof.
  assert (H1 : toString noPlaceholder <> "[object Object]") by discriminate.
  split; [exact H1 |].
  split; [reflexivity |].
  exact (@describe_without_placeholder
           Env noPlaceholder (MkActor "Ca$$h" []) H1 eq_refl).
Defined.


(** Wendy cannot call an API, and that is an error like any other. *)
Lemma missing_ability_witness :
  Actor.findAbilityTo Wendy CallAnApi = None
  /\ exists error,
       Actor.abilityTo Wendy CallAnApi = Threw error
       /\ OutcomeMatcher.outcomeFor error = ExecutionFailedWithError error.
Proof.
  split; [reflexivity |].
  exact (@missing_ability_is_reported_as_an_error Env Wendy CallAnApi eq_refl).
Defined.

(** Logging in and out, in one call or in two. *)
Lemma attemptsTo_twice_witness :
  Actor.attemptsTo WendyReady [logIn] curtain
  = (Fulfilled tt, snd (Actor.attemptsTo WendyReady [logIn] curtain))
  /\ filter (Actor.notInitialised
               (env (snd (Actor.attemptsTo WendyReady [logIn] curtain))))
       (Actor.findAbilitiesOfType WendyReady [initialise_; isInitialised_])
     = []
  /\ Actor.attemptsTo WendyReady [logIn; logOut] curtain
     = Actor.attemptsTo WendyReady [logOut]
         (snd (Actor.attemptsTo WendyReady [logIn] curtain))
  /\ notes (env (snd (Actor.attemptsTo WendyReady [logIn; logOut] curtain)))
     = ["api client ready"; "logged in"; "logged out"].
Proof.
  split; [reflexivity |].
  split; [reflexivity |].
  split; [| reflexivity].
  exact (@attemptsTo_twice_is_attemptsTo_once
           Env stage WendyReady [logIn] [logOut] curtain
           (snd (Actor.attemptsTo WendyReady [logIn] curtain))
           eq_refl eq_refl).
Defined.

(** A photo collected under an empty name is filed as a Photo. *)
Example collect_photo :
  ActorReporting.collect Wendy photo (ActorReporting.AsString "")
    (MkEnv (Some (MkCorrelationId 7)) 1 0 [] [])
  = (Returned tt, note "Photo" (MkEnv (Some (MkCorrelationId 7)) 1 0 [] []))
  /\ ActorReporting.collect Wendy photo (ActorReporting.AsString "evidence")
       (MkEnv (Some (MkCorrelationId 7)) 1 0 [] [])
     = (Returned tt, note "evidence" (MkEnv (Some (MkCorrelationId 7)) 1 0 [] []))
  /\ fst (ActorReporting.collect Wendy photo ActorReporting.Omitted interval)
     = Threw (Errors.new LogicError "No scene is active" None).
Proof. repeat split. Qed.

(** A question about a question is asked twice over. *)
Example answer_nested :
  fst (Actor.answer Wendy nested curtain) = Actor.PromiseResolve fortyTwo
  /\ notes (env (snd (Actor.answer Wendy nested curtain)))
     = ["asked first"; "asked"].
Proof. split; reflexivity. Qed.
